(** * extractTiffFromPdf: the dispatcher and the page converter of
    [src/extract_tiff_from_pdf/main.py], embedded and verified.

    The Python module has two functions of substance:
    - [_convert_page_to_image] renders one page and saves it as a TIFF file;
    - [extract_tiff_from_pdf] validates its arguments, counts the pages,
      creates the output directory and runs one converter call per page on a
      [ThreadPoolExecutor] of 20 workers, then collects the futures.

    Python integers are [Z], strings are [string], byte strings are
    [list byte].  The file system is a finite map from path strings to file
    contents plus a set of directories.  External calls are the constructors
    of [call]; a program is a tree of calls ([prog]).  The thread pool is a
    transition system whose labels say which thread moves next, so every
    interleaving of the dispatcher and the workers is a list of labels. *)

From Stdlib Require Import ZArith Ascii String DecimalString DecimalN.
From stdpp Require Import base gmap strings list fin_maps.

Open Scope Z_scope.

(** ** Exceptions *)

(** The exception classes the program and its collaborators raise.
    [LibraryError] stands for the classes of pypdf, pdf2image and Pillow. *)
Inductive exn_class : Type :=
| ValueError
| IndexError
| FileNotFoundError
| FileExistsError
| IsADirectoryError
| LibraryError.

Record exn : Type := Exn { exn_type : exn_class; exn_msg : string }.

#[global] Instance exn_class_eq_dec : EqDecision exn_class.
Proof. solve_decision. Defined.

#[global] Instance exn_eq_dec : EqDecision exn.
Proof. solve_decision. Defined.

(** ** Strings: integer formatting and path joining *)

(** [str(z)] for a Python integer. *)
Definition str_int (z : Z) : string := NilEmpty.string_of_int (Z.to_int z).

(** The decimal digits of [|z|], without sign. *)
Definition digits_of (z : Z) : string :=
  NilEmpty.string_of_uint (N.to_uint (Z.abs_N z)).

Fixpoint zeros (k : nat) : string :=
  match k with
  | O => ""
  | S k' => String "0"%char (zeros k')
  end.

(** [format(z, "04")]: sign-aware zero padding to a minimum width of 4. *)
Definition format_04 (z : Z) : string :=
  let digits := digits_of z in
  let sign := if z <? 0 then "-" else "" in
  sign +:+ zeros (4 - String.length sign - String.length digits)%nat +:+ digits.

(** [f"page_{page_number+1:04}.tiff"], line 93. *)
Definition page_file_name (page_number : Z) : string :=
  "page_" +:+ format_04 (page_number + 1) +:+ ".tiff".

Definition starts_with_sep (s : string) : bool :=
  match s with
  | String "/"%char _ => true
  | _ => false
  end.

Fixpoint ends_with_sep (s : string) : bool :=
  match s with
  | "" => false
  | String c "" => bool_decide (c = "/"%char)
  | String _ s' => ends_with_sep s'
  end.


(** [os.path.join(a, b)] of [posixpath]. *)
Definition os_path_join (a b : string) : string :=
  if starts_with_sep b then b
  else if bool_decide (a = "") || ends_with_sep a then a +:+ b
  else a +:+ "/" +:+ b.

(** Value of a string of decimal digits, [None] when a character is not a
    digit or the string is empty. *)
Definition decimal_value (s : string) : option Z :=
  Z.of_uint <$> NilEmpty.uint_of_string s.

(** ** The file system and the console *)

(** A file-system object is identified with the path string it is reached
    by.  [files] maps the paths of regular files to their contents, [dirs]
    is the set of directories, [stdout] the texts handed to [print], one
    entry for each call, in the order of the calls.  Only the program
    changes the world: no other process interferes. *)
Record world : Type := World {
  files : gmap string (list Byte.byte);
  dirs : gset string;
  stdout : list string;
}.

(** [os.path.isfile(p)] *)
Definition os_path_isfile (p : string) (w : world) : bool :=
  bool_decide (is_Some (files w !! p)).

(** [open(p, 'rb')]: the file object is modelled by the bytes it gives
    access to. *)
Definition open_rb (p : string) (w : world) : exn + list Byte.byte :=
  match files w !! p with
  | Some b => inr b
  | None =>
      inl (Exn (if bool_decide (p ∈ dirs w) then IsADirectoryError
                else FileNotFoundError) p)
  end.

(** [os.makedirs(p, exist_ok=exist_ok)].  An existing directory is accepted
    only under [exist_ok]; the empty path is refused; a path that names a
    regular file is refused whatever [exist_ok] says.  Only the directory
    itself is dealt with: the parents [os.makedirs] makes on the way are
    not recorded, and a parent that is a regular file, for which
    [os.makedirs] raises [NotADirectoryError], is not looked for.  So
    after a success the directories of the world are some of those that
    exist, and a statement about which paths can be made names them
    itself instead of relying on this function. *)
Definition os_makedirs (p : string) (exist_ok : bool) (w : world)
  : (exn + unit) * world :=
  if bool_decide (p ∈ dirs w) then
    (if exist_ok then inr tt else inl (Exn FileExistsError p), w)
  else if bool_decide (p = "") then (inl (Exn FileNotFoundError p), w)
  else if bool_decide (is_Some (files w !! p)) then
    (inl (Exn FileExistsError p), w)
  else (inr tt, World (files w) ({[p]} ∪ dirs w) (stdout w)).

(** Writing a whole file, as [Image.save] does: refused when the target is
    a directory, otherwise the file is created or overwritten.  The parent
    directory is not looked up: the dispatcher saves into the directory
    that [os.makedirs] has just made or found.  Where that directory is
    missing [Image.save] raises [FileNotFoundError], so what is said of a
    save below is said of worlds that have the directory. *)
Definition write_file (p : string) (b : list Byte.byte) (w : world)
  : (exn + unit) * world :=
  if bool_decide (p ∈ dirs w) then (inl (Exn IsADirectoryError p), w)
  else (inr tt, World (<[p := b]> (files w)) (dirs w) (stdout w)).

(** [print(s)]: the call is recorded with its text.  On the stream the text
    and the line end are two writes, between which another thread may
    write; the bytes of the stream are not modelled, and where threads run
    together the statements below speak of the calls, which are in the
    log. *)
Definition print (s : string) (w : world) : world :=
  World (files w) (dirs w) (stdout w ++ [s]).

(** ** Threads and schedules *)

(** Where the dispatcher thread is in lines 50-62. *)
Inductive dispatcher : Type :=
| Submitting (raw_pdf_bytes : list Byte.byte) (resolution : Z)
    (output_directory : string) (todo : list Z) (futures : list Z)
    (* in the [for] loop of line 53, [todo] left to iterate over *)
| AsCompleted (pending : list Z)
    (* in the [for] loop of line 60, [pending] not yet yielded *)
| Shutdown (r : option exn)
    (* leaving the [with] block: [shutdown(wait=True)], with the exception
       in flight if there is one *)
| Returned (r : option exn).
    (* back in the caller, normally ([None]) or with an exception *)

(** Which thread moves: the dispatcher; the dispatcher receiving the
    [i]-th pending future from [as_completed]; an idle worker taking the
    head of the queue; the worker at position [i] of [running]. *)
Inductive label : Type :=
| Disp
| Yield (i : nat)
| Start
| Work (i : nat).

(** ** Sample collaborators and worlds

    A toy document has one byte per page; the page whose byte is [x00] does
    not render.  A decoded image is the page byte with the resolution it
    was rendered at, and its encoding is the byte followed by the format
    name and the two DPI values. *)
Module Demo.

Definition image : Type := Byte.byte * Z.

Definition pdf_num_pages (raw : list Byte.byte) : exn + nat :=
  inr (length raw).

Definition convert_from_bytes (raw : list Byte.byte)
    (dpi first_page last_page : Z) (grayscale : bool) : exn + list image :=
  match raw !! Z.to_nat (first_page - 1) with
  | Some Byte.x00 => inl (Exn LibraryError "Unable to render page")
  | Some b => inr [(b, dpi)]
  | None => inr []
  end.

Definition image_encode (img : image) (fmt : string) (dpi : Z * Z)
  : list Byte.byte :=
  img.1 :: list_byte_of_string
             (fmt +:+ " " +:+ str_int dpi.1 +:+ "x" +:+ str_int dpi.2).

(** A three-page document, one whose second page does not render, and an
    empty one. *)
Definition doc3 : list Byte.byte := [Byte.x41; Byte.x42; Byte.x43].
Definition doc_bad : list Byte.byte := [Byte.x41; Byte.x00; Byte.x43].
Definition doc0 : list Byte.byte := [].

Definition doc25 : list Byte.byte := replicate 25 Byte.x41.

Definition w0 : world :=
  World (<["doc.pdf" := doc3]> (<["bad.pdf" := doc_bad]>
           (<["empty.pdf" := doc0]> (<["big.pdf" := doc25]> ∅)))) ∅ [].

(** Submit the three pages, run them one after the other, collect. *)
Definition sched3 : list label :=
  [Disp; Disp; Disp; Disp;
   Start; Work 0; Work 0; Work 0; Work 0;
   Start; Work 0; Work 0; Work 0; Work 0;
   Start; Work 0; Work 0; Work 0; Work 0;
   Yield 0; Yield 0; Yield 0; Disp; Disp].

(** The same with the workers interleaved and the futures collected in
    another order. *)
Definition sched3' : list label :=
  [Disp; Start; Disp; Work 0; Start; Disp; Work 1; Start; Work 2; Disp;
   Work 2; Work 1; Work 0; Work 2; Work 2; Work 0; Work 0; Work 0; Work 0;
   Yield 2; Yield 0; Yield 0; Disp; Disp].

(** For [bad.pdf]: page 2 fails at once, pages 1 and 3 are converted. *)
Definition sched_bad : list label :=
  [Disp; Disp; Disp; Disp;
   Start; Start; Start;
   Work 1; Work 1;
   Work 0; Work 0; Work 0; Work 0;
   Yield 1;
   Work 0; Work 0; Work 0; Work 0;
   Disp].

(** A call that returns at once has the empty schedule; a document without
    pages only moves the dispatcher. *)
Definition sched0 : list label := [Disp; Disp; Disp].

(** For [big.pdf]: all 25 pages are submitted, then 20 workers take one
    each. *)
Definition sched_full : list label := replicate 26 Disp ++ replicate 20 Start.

End Demo.

(** ** External calls and programs *)

Section Model.

(** The collaborators, opaque to the program: decoded page images, the page
    counter of pypdf ([len(PdfReader(f).pages)]), the rasterizer of
    pdf2image and the image encoder of Pillow. *)
Variable image : Type.
Variable pdf_num_pages : list Byte.byte → exn + nat.
Variable convert_from_bytes :
  list Byte.byte → Z → Z → Z → bool → exn + list image.
Variable image_encode : image → string → Z * Z → list Byte.byte.

(** One constructor per external call of [main.py], indexed by the type of
    what the call returns. *)
Inductive call : Type → Type :=
| IsFile (p : string) : call bool
| OpenRb (p : string) : call (list Byte.byte)
| NumPages (f : list Byte.byte) : call nat
| MakeDirs (p : string) (exist_ok : bool) : call unit
| ConvertFromBytes (raw : list Byte.byte) (dpi first_page last_page : Z)
    (grayscale : bool) : call (list image)
| ImageSave (img : image) (p fmt : string) (dpi : Z * Z) : call unit
| Print (s : string) : call unit.

(** What the log keeps of the run: the external calls, the submissions to
    the pool and the [future.result()] calls of the dispatcher. *)
Inductive event : Type :=
| EIsFile (p : string)
| EOpenRb (p : string)
| ENumPages (f : list Byte.byte)
| EMakeDirs (p : string) (exist_ok : bool)
| EConvert (raw : list Byte.byte) (dpi first_page last_page : Z)
    (grayscale : bool)
| ESave (img : image) (p fmt : string) (dpi : Z * Z)
| EPrint (s : string)
| ESubmit (page_number : Z)
| EResult (page_number : Z).

Definition event_of {X} (c : call X) : event :=
  match c with
  | IsFile p => EIsFile p
  | OpenRb p => EOpenRb p
  | NumPages f => ENumPages f
  | MakeDirs p e => EMakeDirs p e
  | ConvertFromBytes raw dpi fp lp g => EConvert raw dpi fp lp g
  | ImageSave img p fmt dpi => ESave img p fmt dpi
  | Print s => EPrint s
  end.

(** The effect of a call on the world and what it returns or raises. *)
Definition handle {X} (c : call X) (w : world) : (exn + X) * world :=
  match c in call X return (exn + X) * world with
  | IsFile p => (inr (os_path_isfile p w), w)
  | OpenRb p => (open_rb p w, w)
  | NumPages f => (pdf_num_pages f, w)
  | MakeDirs p e => os_makedirs p e w
  | ConvertFromBytes raw dpi fp lp g =>
      (convert_from_bytes raw dpi fp lp g, w)
  | ImageSave img p fmt dpi => write_file p (image_encode img fmt dpi) w
  | Print s => (inr tt, print s w)
  end.

(** A program: return, raise, or make a call and go on with its result. *)
Inductive prog (A : Type) : Type :=
| Ret (a : A)
| Raise (e : exn)
| Do {X : Type} (c : call X) (k : X → prog A).

Arguments Ret {A} a.
Arguments Raise {A} e.
Arguments Do {A X} c k.

Notation "x <- c ;; k" := (Do c (fun x => k))
  (at level 100, c at next level, right associativity, only parsing).
Notation "c ;;; k" := (Do c (fun _ => k))
  (at level 100, right associativity, only parsing).

(** Running a program from start to end in one thread. *)
Fixpoint exec {A} (p : prog A) (w : world) (log : list event)
  : (exn + A) * world * list event :=
  match p with
  | Ret a => (inr a, w, log)
  | Raise e => (inl e, w, log)
  | Do c k =>
      match handle c w with
      | (inl e, w') => (inl e, w', log ++ [event_of c])
      | (inr x, w') => exec (k x) w' (log ++ [event_of c])
      end
  end.

(** ** The page converter, lines 64-95 *)

Definition _convert_page_to_image (raw_pdf_bytes : list Byte.byte)
    (resolution : Z) (output_directory : string) (page_number : Z)
  : prog unit :=
  images <- ConvertFromBytes raw_pdf_bytes resolution
             (page_number + 1) (page_number + 1) true ;;
  match images with
  | [] => Raise (Exn IndexError "list index out of range")
  | image0 :: _ =>
      let image_path :=
        os_path_join output_directory (page_file_name page_number) in
      ImageSave image0 image_path "TIFF" (resolution, resolution) ;;;
      Print ("Saved page " +:+ str_int (page_number + 1) +:+ " as "
             +:+ image_path) ;;;
      Ret tt
  end.

(** ** The dispatcher, lines 10-62 *)

(** [range(total_pages)] *)
Definition range (total_pages : nat) : list Z :=
  Z.of_nat <$> seq 0 total_pages.

(** Lines 31-47: validation, page count, output directory, document bytes.
    Nothing else runs yet, so this part is one sequential program. *)
Definition prepare (pdf_path output_directory : string) (resolution : Z)
  : prog (list Byte.byte * nat) :=
  if resolution <=? 0
  then Raise (Exn ValueError "Resolution must be a positive integer")
  else
    is_file <- IsFile pdf_path ;;
    if negb is_file
    then Raise (Exn ValueError ("PDF file not found: " +:+ pdf_path))
    else
      pdf_file <- OpenRb pdf_path ;;
      total_pages <- NumPages pdf_file ;;
      MakeDirs output_directory true ;;;
      raw_pdf_bytes <- OpenRb pdf_path ;;
      Ret (raw_pdf_bytes, total_pages).

(** *** The thread pool *)

(** A [ThreadPoolExecutor]: the ceiling on worker threads, the number of
    threads spawned so far, the FIFO work queue, the work items being run
    (one per busy worker, with what is left of each), and the futures that
    are done, in completion order, with [None] for a normal result and
    [Some e] for an exception.  A future is named by the page number it was
    submitted for. *)
Record pool : Type := Pool {
  max_workers : nat;
  threads : nat;
  queue : list (Z * prog unit);
  running : list (Z * prog unit);
  finished : list (Z * option exn);
}.

(** [ThreadPoolExecutor(max_workers=n)] *)
Definition ThreadPoolExecutor (n : nat) : pool := Pool n 0 [] [] [].

(** [executor.submit(fn, *args)]: the item joins the queue, and a thread is
    spawned unless the ceiling is reached.  (The executor also skips the
    spawn when a worker has signalled that it is idle; that only takes
    interleavings away.) *)
Definition submit (id : Z) (work : prog unit) (p : pool) : pool :=
  Pool (max_workers p)
       (if bool_decide (threads p < max_workers p)%nat
        then S (threads p) else threads p)
       (queue p ++ [(id, work)])
       (running p)
       (finished p).

(** The state of the future [id]: [None] while it is not done. *)
Fixpoint future_state (id : Z) (fin : list (Z * option exn))
  : option (option exn) :=
  match fin with
  | [] => None
  | (id', r) :: fin' =>
      if bool_decide (id' = id) then Some r else future_state id fin'
  end.

Record state : Type := State {
  st_world : world;
  st_log : list event;
  st_disp : dispatcher;
  st_pool : pool;
}.

Definition step (l : label) (s : state) : option state :=
  let 'State w log d p := s in
  match l with
  | Disp =>
      match d with
      | Submitting raw res out (n :: todo) futures =>
          Some (State w (log ++ [ESubmit n])
                  (Submitting raw res out todo (futures ++ [n]))
                  (submit n (_convert_page_to_image raw res out n) p))
      | Submitting _ _ _ [] futures => Some (State w log (AsCompleted futures) p)
      | AsCompleted [] => Some (State w log (Shutdown None) p)
      | AsCompleted (_ :: _) => None
      | Shutdown r =>
          match queue p, running p with
          | [], [] => Some (State w log (Returned r) p)
          | _, _ => None
          end
      | Returned _ => None
      end
  | Yield i =>
      match d with
      | AsCompleted pending =>
          match pending !! i with
          | Some n =>
              match future_state n (finished p) with
              | Some None =>
                  Some (State w (log ++ [EResult n])
                          (AsCompleted (delete i pending)) p)
              | Some (Some e) =>
                  Some (State w (log ++ [EResult n]) (Shutdown (Some e)) p)
              | None => None
              end
          | None => None
          end
      | _ => None
      end
  | Start =>
      match queue p with
      | item :: q =>
          if bool_decide (length (running p) < threads p)%nat
          then Some (State w log d
                       (Pool (max_workers p) (threads p) q
                          (running p ++ [item]) (finished p)))
          else None
      | [] => None
      end
  | Work i =>
      match running p !! i with
      | Some (n, Ret _) =>
          Some (State w log d
                  (Pool (max_workers p) (threads p) (queue p)
                     (delete i (running p)) (finished p ++ [(n, None)])))
      | Some (n, Raise e) =>
          Some (State w log d
                  (Pool (max_workers p) (threads p) (queue p)
                     (delete i (running p)) (finished p ++ [(n, Some e)])))
      | Some (n, Do c k) =>
          let '(r, w') := handle c w in
          Some (State w' (log ++ [event_of c]) d
                  (Pool (max_workers p) (threads p) (queue p)
                     (<[i := (n, match r with
                                 | inl e => Raise e
                                 | inr x => k x
                                 end)]> (running p))
                     (finished p)))
      | None => None
      end
  end.

(** A schedule is a list of labels; it runs while its labels are enabled. *)
Fixpoint run (sched : list label) (s : state) : option state :=
  match sched with
  | [] => Some s
  | l :: sched' =>
      match step l s with
      | Some s' => run sched' s'
      | None => None
      end
  end.

(** The pool component of a call that failed before line 50. *)
Definition no_pool : pool := Pool 0 0 [] [] [].

(** The state in which the threads start to interleave: [prepare] has run;
    when it raised, the call is already back in the caller. *)
Definition start (pdf_path output_directory : string) (resolution : Z)
    (w : world) : state :=
  match exec (prepare pdf_path output_directory resolution) w [] with
  | (inl e, w', log) => State w' log (Returned (Some e)) no_pool
  | (inr (raw_pdf_bytes, total_pages), w', log) =>
      State w' log
        (Submitting raw_pdf_bytes resolution output_directory
           (range total_pages) [])
        (ThreadPoolExecutor 20)
  end.

(** [extract_tiff_from_pdf(pdf_path, output_directory, resolution)] under
    the schedule [sched]: what the caller gets ([None] for a normal return,
    [Some e] for the exception [e]), the world and the log, when the
    schedule takes the call all the way back to the caller. *)
Definition extract_tiff_from_pdf (pdf_path output_directory : string)
    (resolution : Z) (sched : list label) (w : world)
  : option (option exn * world * list event) :=
  match run sched (start pdf_path output_directory resolution w) with
  | Some (State w' log (Returned r) _) => Some (r, w', log)
  | _ => None
  end.

(** ** Reading the log, the pool and the converter

    Notions the statements below are written with. *)

(** The page numbers submitted to the pool, in submission order. *)
Definition submitted (log : list event) : list Z :=
  omap (λ e, match e with ESubmit n => Some n | _ => None end) log.

(** The futures whose [result()] the dispatcher has called, in order. *)
Definition observed (log : list event) : list Z :=
  omap (λ e, match e with EResult n => Some n | _ => None end) log.

(** The future names of a list of work items or of done futures. *)
Definition ids {A} (l : list (Z * A)) : list Z := l.*1.

(** The path the converter saves page [n] to. *)
Definition page_path (output_directory : string) (n : Z) : string :=
  os_path_join output_directory (page_file_name n).

(** The line the converter prints for page [n]. *)
Definition page_message (output_directory : string) (n : Z) : string :=
  "Saved page " +:+ str_int (n + 1) +:+ " as "
  +:+ page_path output_directory n.

(** What is left of the converter once the page is rendered, and once it
    is saved. *)
Definition report_page (out : string) (n : Z) : prog unit :=
  Print (page_message out n) ;;; Ret tt.

Definition save_page (img : image) (res : Z) (out : string) (n : Z)
  : prog unit :=
  ImageSave img (page_path out n) "TIFF" (res, res) ;;; report_page out n.

(** How the converter ends for page [n] when the directories are [ds]:
    it is run alone, and only its result is kept. *)
Definition task_outcome (raw : list Byte.byte) (res : Z) (out : string)
    (ds : gset string) (n : Z) : option exn :=
  match exec (_convert_page_to_image raw res out n) (World ∅ ds []) [] with
  | (inl e, _, _) => Some e
  | (inr _, _, _) => None
  end.

(** *** Invariants of the pool phase *)

(** No more work items are being run than threads exist, and no more
    threads than the ceiling, which is at most 20. *)
Definition pool_bounded (p : pool) : Prop :=
  (length (running p) ≤ threads p)%nat
  ∧ (threads p ≤ max_workers p)%nat
  ∧ (max_workers p ≤ 20)%nat.

(** The dispatcher against the log and the done futures, for a document of
    [P] pages. *)
Definition disp_ok (raw : list Byte.byte) (res : Z) (out : string) (P : nat)
    (log : list event) (fin : list (Z * option exn)) (d : dispatcher)
  : Prop :=
  match d with
  | Submitting raw' res' out' todo futures =>
      raw' = raw ∧ res' = res ∧ out' = out
      ∧ futures = submitted log
      ∧ submitted log ++ todo = range P
      ∧ observed log = []
  | AsCompleted pending =>
      submitted log = range P
      ∧ observed log ++ pending ≡ₚ range P
      ∧ (∀ m, m ∈ observed log → (m, None) ∈ fin)
  | Shutdown r | Returned r =>
      submitted log = range P
      ∧ match r with
        | None => ∀ n, n ∈ range P → (n, None) ∈ fin
        | Some e =>
            ∃ pre n, observed log = pre ++ [n] ∧ (n, Some e) ∈ fin
                     ∧ ∀ m, m ∈ pre → (m, None) ∈ fin
        end
  end.

(** Every submitted page is in the queue, being run, or done, once. *)
Definition accounted (raw : list Byte.byte) (res : Z) (out : string)
    (P : nat) (s : state) : Prop :=
  let p := st_pool s in
  disp_ok raw res out P (st_log s) (finished p) (st_disp s)
  ∧ submitted (st_log s) ≡ₚ ids (queue p) ++ ids (running p) ++ ids (finished p)
  ∧ (∀ n prg, (n, prg) ∈ queue p → prg = _convert_page_to_image raw res out n)
  ∧ max_workers p = 20%nat
  ∧ (queue p ≠ [] → 0 < threads p)%nat
  ∧ (∀ r, st_disp s = Returned r → queue p = [] ∧ running p = []).

(** Where a work item for page [n] can be, with what has happened by
    then. *)
Definition phase (raw : list Byte.byte) (res : Z) (out : string) (w : world)
    (log : list event) (n : Z) (prg : prog unit) : Prop :=
  prg = _convert_page_to_image raw res out n
  ∨ (EConvert raw res (n + 1) (n + 1) true ∈ log
     ∧ ((∃ e, prg = Raise e ∧ task_outcome raw res out (dirs w) n = Some e)
        ∨ (∃ img rest,
              convert_from_bytes raw res (n + 1) (n + 1) true
              = inr (img :: rest)
              ∧ prg = save_page img res out n)
        ∨ (∃ img rest,
              convert_from_bytes raw res (n + 1) (n + 1) true
              = inr (img :: rest)
              ∧ task_outcome raw res out (dirs w) n = None
              ∧ files w !! page_path out n
                = Some (image_encode img "TIFF" (res, res))
              ∧ (prg = report_page out n ∨ prg = Ret tt)))).

(** The work items and the world, against the world [w1] the pool phase
    started in. *)
Definition tasks_ok (raw : list Byte.byte) (res : Z) (out : string) (P : nat)
    (w1 : world) (s : state) : Prop :=
  let p := st_pool s in
  let w := st_world s in
  dirs w = dirs w1
  ∧ (∀ f, (∀ n, n ∈ range P → f ≠ page_path out n) →
          files w !! f = files w1 !! f)
  ∧ (∀ i n prg, running p !! i = Some (n, prg) →
                phase raw res out w (st_log s) n prg)
  ∧ (∀ n r, (n, r) ∈ finished p →
       EConvert raw res (n + 1) (n + 1) true ∈ st_log s
       ∧ r = task_outcome raw res out (dirs w1) n
       ∧ (r = None →
          ∃ img rest,
            convert_from_bytes raw res (n + 1) (n + 1) true
            = inr (img :: rest)
            ∧ files w !! page_path out n
              = Some (image_encode img "TIFF" (res, res)))).

Definition inv (raw : list Byte.byte) (res : Z) (out : string) (P : nat)
    (w1 : world) (s : state) : Prop :=
  pool_bounded (st_pool s) ∧ accounted raw res out P s
  ∧ tasks_ok raw res out P w1 s.

(** The state the pool phase starts in. *)
Definition pool_start (raw : list Byte.byte) (res : Z) (out : string)
    (P : nat) (w1 : world) (log1 : list event) : state :=
  State w1 log1 (Submitting raw res out (range P) []) (ThreadPoolExecutor 20).

(** The log of a [prepare] that went through. *)
Definition prepare_log (pdf out : string) (raw : list Byte.byte)
  : list event :=
  [EIsFile pdf; EOpenRb pdf; ENumPages raw; EMakeDirs out true; EOpenRb pdf].



(** ** Further notions: what a run leaves behind, and the entry point *)

(** What is left of the converter once the rasterizer has answered. *)
Definition after_render (raw : list Byte.byte) (res : Z) (out : string)
    (n : Z) : prog unit :=
  match convert_from_bytes raw res (n + 1) (n + 1) true with
  | inl e => Raise e
  | inr [] => Raise (Exn IndexError "list index out of range")
  | inr (img :: _) => save_page img res out n
  end.

(** The log of the converter run alone on page [n] when the directories
    are [ds]. *)
Definition task_log (raw : list Byte.byte) (res : Z) (out : string)
    (ds : gset string) (n : Z) : list event :=
  (exec (_convert_page_to_image raw res out n) (World ∅ ds []) []).2.

(** Whether an event of the log is a call made for page [n]: a rasterizer
    call for that page, a save at its path, the print of its line. *)
Definition concerns (out : string) (n : Z) (e : event) : bool :=
  match e with
  | EConvert _ _ first_page _ _ => bool_decide (first_page = n + 1)
  | ESave _ p _ _ => bool_decide (p = page_path out n)
  | EPrint s => bool_decide (s = page_message out n)
  | _ => false
  end.

(** Whether an event is a rasterizer call for page [n]. *)
Definition is_render (n : Z) (e : event) : bool :=
  match e with
  | EConvert _ _ first_page _ _ => bool_decide (first_page = n + 1)
  | _ => false
  end.

(** The calls made for page [n], in the order of the log. *)
Definition page_events (out : string) (n : Z) (log : list event)
  : list event :=
  filter (λ e, concerns out n e) log.

(** Each page path holds what it held when the pool phase started, or the
    encoding of its page if the converter ends well for it. *)
Definition files_ok (raw : list Byte.byte) (res : Z) (out : string) (P : nat)
    (w1 w : world) : Prop :=
  ∀ n, n ∈ range P →
    files w !! page_path out n = files w1 !! page_path out n
    ∨ ∃ img rest,
        convert_from_bytes raw res (n + 1) (n + 1) true = inr (img :: rest)
        ∧ task_outcome raw res out (dirs w1) n = None
        ∧ files w !! page_path out n
          = Some (image_encode img "TIFF" (res, res)).



(** The calls made for a page so far are the start of what the converter
    does alone, as far as its work item has got. *)
Definition traced (raw : list Byte.byte) (res : Z) (out : string) (P : nat)
    (w1 : world) (s : state) : Prop :=
  let p := st_pool s in
  let log := st_log s in
  (∀ n, n ∈ range P → n ∉ ids (running p) → n ∉ ids (finished p) →
        page_events out n log = [])
  ∧ (∀ i n prg, running p !! i = Some (n, prg) →
       (prg = _convert_page_to_image raw res out n
        ∧ page_events out n log = [])
       ∨ (∃ img, prg = save_page img res out n
                 ∧ page_events out n log
                   = take 1 (task_log raw res out (dirs w1) n))
       ∨ (prg = report_page out n
          ∧ page_events out n log = take 2 (task_log raw res out (dirs w1) n))
       ∨ ((prg = Ret tt ∨ ∃ e, prg = Raise e)
          ∧ page_events out n log = task_log raw res out (dirs w1) n))
  ∧ (∀ n r, (n, r) ∈ finished p →
            page_events out n log = task_log raw res out (dirs w1) n).

(** Once the dispatcher has left the collection loop: no future was asked
    twice for its result, and all were asked if none had failed. *)
Definition observed_ok (P : nat) (s : state) : Prop :=
  match st_disp s with
  | Shutdown r | Returned r =>
      NoDup (observed (st_log s))
      ∧ (∀ n, n ∈ observed (st_log s) → n ∈ range P)
      ∧ (r = None → observed (st_log s) ≡ₚ range P)
  | _ => True
  end.

(** *** The entry point, lines 125-135 *)

(** [str(e)]: the message for the exceptions built from one, and for the
    exceptions of the operating system the error number, its text and the
    path.  [py_repr] is [repr(s)] of a Python string, as it stands in the
    text of an [OSError]. *)
Definition str_exn (py_repr : string → string) (e : exn) : string :=
  match exn_type e with
  | FileNotFoundError =>
      "[Errno 2] No such file or directory: " +:+ py_repr (exn_msg e)
  | FileExistsError => "[Errno 17] File exists: " +:+ py_repr (exn_msg e)
  | IsADirectoryError => "[Errno 21] Is a directory: " +:+ py_repr (exn_msg e)
  | ValueError | IndexError | LibraryError => exn_msg e
  end.

(** [main()] once [_parse_arguments()] has returned the namespace with
    [pdf_file], [output] and [resolution]: the exit status of the process,
    the lines written to [sys.stderr], the world and the log.  The status
    is 0 when [main] returns and 1 when it calls [sys.exit(1)]. *)
Definition main (py_repr : string → string) (pdf_file output : string)
    (resolution : Z) (sched : list label) (w : world)
  : option (Z * list string * world * list event) :=
  match extract_tiff_from_pdf pdf_file output resolution sched w with
  | Some (None, w', log) => Some (0, [], w', log)
  | Some (Some e, w', log) =>
      Some (1, ["Error processing PDF: " +:+ str_exn py_repr e], w', log)
  | None => None
  end.

(** *** A count of the moves that are left *)

(** The moves the worker still has on the work item of page [n]: one for
    each call not yet in the log, and one to set the future. *)
Definition item_left (raw : list Byte.byte) (res : Z) (out : string)
    (ds : gset string) (log : list event) (n : Z) : nat :=
  (length (task_log raw res out ds n) - length (page_events out n log) + 1)%nat.

(** A bound on the moves all threads together can still make: for a work
    item being run see [item_left]; a queued one is also to be started, a
    page not yet submitted also to be submitted; the dispatcher ends each
    of its two loops, asks every future at most once and leaves. *)
Definition moves_left (raw : list Byte.byte) (res : Z) (out : string)
    (ds : gset string) (s : state) : nat :=
  (sum_list_with (λ x, item_left raw res out ds (st_log s) x.1)
     (running (st_pool s))
   + sum_list_with (λ x, length (task_log raw res out ds x.1) + 2)
       (queue (st_pool s))
   + match st_disp s with
     | Submitting _ _ _ todo futures =>
         sum_list_with (λ n, length (task_log raw res out ds n) + 3) todo
         + length todo + length futures + 3
     | AsCompleted pending => length pending + 2
     | Shutdown _ => 1
     | Returned _ => 0
     end)%nat.

(** ** Strings *)

Lemma list_ascii_of_string_app (a b : string) :
  list_ascii_of_string (a +:+ b)
  = list_ascii_of_string a ++ list_ascii_of_string b.
Proof. induction a as [|c a IH]; simpl; [done | by rewrite IH]. Qed.

Lemma list_ascii_of_string_inj (a b : string) :
  list_ascii_of_string a = list_ascii_of_string b → a = b.
Proof.
  intros H. rewrite <- (string_of_list_ascii_of_string a),
    <- (string_of_list_ascii_of_string b). by rewrite H.
Qed.

Lemma append_inv_head (s a b : string) : s +:+ a = s +:+ b → a = b.
Proof. induction s as [|c s IH]; simpl; [done |]. intros [= H]. auto. Qed.

Lemma append_inv_tail (t a b : string) : a +:+ t = b +:+ t → a = b.
Proof.
  intros H. apply list_ascii_of_string_inj.
  apply (f_equal list_ascii_of_string) in H.
  rewrite !list_ascii_of_string_app in H. by apply app_inv_tail in H.
Qed.

(** Leading zeros do not change the value of a digit string. *)
Lemma decimal_value_zeros (k : nat) (s : string) :
  decimal_value (zeros k +:+ s) = decimal_value s.
Proof.
  induction k as [|k IH]; simpl; [done |].
  rewrite <- IH. unfold decimal_value. simpl.
  destruct (NilEmpty.uint_of_string (zeros k +:+ s)); done.
Qed.

Lemma decimal_value_digits_of (z : Z) : decimal_value (digits_of z) = Some (Z.abs z).
Proof.
  unfold decimal_value, digits_of. rewrite NilEmpty.usu. simpl.
  unfold Z.of_uint. change Pos.of_uint with N.of_uint.
  rewrite DecimalN.Unsigned.of_to. by rewrite N2Z.inj_abs_N.
Qed.

Lemma format_04_nonneg (z : Z) :
  0 ≤ z →
  format_04 z = zeros (4 - String.length (digits_of z)) +:+ digits_of z.
Proof.
  intros Hz. unfold format_04.
  destruct (Z.ltb_spec z 0) as [|_]; [lia |]. reflexivity.
Qed.

Lemma decimal_value_format_04 (z : Z) :
  0 ≤ z → decimal_value (format_04 z) = Some z.
Proof.
  intros Hz. rewrite format_04_nonneg by done.
  rewrite decimal_value_zeros, decimal_value_digits_of. f_equal. lia.
Qed.

Lemma str_int_nonneg (z : Z) : 0 ≤ z → str_int z = digits_of z.
Proof.
  intros Hz. unfold str_int, digits_of. destruct z as [|p|p]; [done | done | lia].
Qed.

Lemma page_file_name_inj (i j : Z) :
  0 ≤ i → 0 ≤ j → page_file_name i = page_file_name j → i = j.
Proof.
  intros Hi Hj H. unfold page_file_name in H.
  apply append_inv_head, append_inv_tail in H.
  apply (f_equal decimal_value) in H.
  rewrite !decimal_value_format_04 in H by lia. injection H. lia.
Qed.

Lemma page_file_name_no_sep (n : Z) : starts_with_sep (page_file_name n) = false.
Proof. done. Qed.

Lemma os_path_join_inj (a b b' : string) :
  starts_with_sep b = false → starts_with_sep b' = false →
  os_path_join a b = os_path_join a b' → b = b'.
Proof.
  unfold os_path_join. intros -> ->.
  destruct (bool_decide (a = "") || ends_with_sep a).
  - apply append_inv_head.
  - intros H. by apply append_inv_head, append_inv_head in H.
Qed.

Lemma page_path_inj (out : string) (i j : Z) :
  0 ≤ i → 0 ≤ j → page_path out i = page_path out j → i = j.
Proof.
  intros Hi Hj H. apply page_file_name_inj; [done | done |].
  eapply os_path_join_inj, H; apply page_file_name_no_sep.
Qed.

Lemma elem_of_range (P : nat) (n : Z) : n ∈ range P ↔ 0 ≤ n < Z.of_nat P.
Proof.
  unfold range. rewrite list_elem_of_fmap. split.
  - intros (k & -> & Hk). apply elem_of_seq in Hk. lia.
  - intros H. exists (Z.to_nat n). split; [lia |]. apply elem_of_seq. lia.
Qed.

Lemma NoDup_range (P : nat) : NoDup (range P).
Proof.
  unfold range. apply NoDup_fmap_2; [| apply NoDup_seq].
  intros a b. lia.
Qed.

Lemma length_range (P : nat) : length (range P) = P.
Proof. unfold range. by rewrite length_fmap, length_seq. Qed.

Lemma NoDup_page_paths (out : string) (P : nat) :
  NoDup (page_path out <$> range P).
Proof.
  apply NoDup_fmap_2_strong; [| apply NoDup_range].
  intros i j Hi Hj. apply elem_of_range in Hi, Hj. apply page_path_inj; lia.
Qed.

(** ** The sequential parts *)

Lemma os_makedirs_ok (out : string) (w w1 : world) :
  os_makedirs out true w = (inr tt, w1) →
  w1 = World (files w) ({[out]} ∪ dirs w) (stdout w).
Proof.
  unfold os_makedirs. repeat case_bool_decide; intros Hm; try done.
  - injection Hm as <-. destruct w as [f d o]; simpl in *. f_equal.
    symmetry. by apply subseteq_union_1_L, singleton_subseteq_l.
  - by injection Hm as <-.
Qed.

Lemma os_makedirs_exists (out : string) (w : world) :
  out ∈ dirs w → os_makedirs out true w = (inr tt, w).
Proof. intros H. unfold os_makedirs. by rewrite bool_decide_eq_true_2. Qed.

Lemma os_makedirs_files (out : string) (w w1 : world) :
  os_makedirs out true w = (inr tt, w1) →
  files w1 = files w ∧ out ∈ dirs w1.
Proof. intros ->%os_makedirs_ok. simpl. split; [done | set_solver]. Qed.

(** [prepare] run from an empty log, case by case. *)
Lemma exec_prepare (pdf out : string) (res : Z) (w : world) :
  exec (prepare pdf out res) w []
  = if res <=? 0
    then (inl (Exn ValueError "Resolution must be a positive integer"), w, [])
    else
      match files w !! pdf with
      | None =>
          (inl (Exn ValueError ("PDF file not found: " +:+ pdf)), w,
           [EIsFile pdf])
      | Some raw =>
          match pdf_num_pages raw with
          | inl e => (inl e, w, [EIsFile pdf; EOpenRb pdf; ENumPages raw])
          | inr P =>
              match os_makedirs out true w with
              | (inl e, w') =>
                  (inl e, w',
                   [EIsFile pdf; EOpenRb pdf; ENumPages raw;
                    EMakeDirs out true])
              | (inr _, w') =>
                  match open_rb pdf w' with
                  | inl e => (inl e, w', prepare_log pdf out raw)
                  | inr raw' => (inr (raw', P), w', prepare_log pdf out raw)
                  end
              end
          end
      end.
Proof.
  unfold prepare. destruct (res <=? 0); [done |]. simpl.
  unfold os_path_isfile. destruct (files w !! pdf) as [raw|] eqn:Hf.
  - rewrite bool_decide_eq_true_2 by eauto. simpl.
    unfold open_rb at 1. rewrite Hf.
    destruct (pdf_num_pages raw); [done |]. simpl.
    destruct (os_makedirs out true w) as [[e|[]] w']; [done |].
    by destruct (open_rb pdf w').
  - rewrite bool_decide_eq_false_2; [done |]. by intros [? ?].
Qed.

Lemma start_invalid_resolution (pdf out : string) (res : Z) (w : world) :
  res ≤ 0 →
  start pdf out res w
  = State w [] (Returned (Some (Exn ValueError
                                  "Resolution must be a positive integer")))
      no_pool.
Proof.
  intros H. unfold start. rewrite exec_prepare.
  destruct (Z.leb_spec res 0); [done | lia].
Qed.

Lemma start_missing_file (pdf out : string) (res : Z) (w : world) :
  0 < res → files w !! pdf = None →
  start pdf out res w
  = State w [EIsFile pdf]
      (Returned (Some (Exn ValueError ("PDF file not found: " +:+ pdf))))
      no_pool.
Proof.
  intros H Hf. unfold start. rewrite exec_prepare, Hf.
  destruct (Z.leb_spec res 0); [lia | done].
Qed.

Lemma start_pool (pdf out : string) (res : Z) (w w1 : world)
    (raw : list Byte.byte) (P : nat) :
  0 < res → files w !! pdf = Some raw → pdf_num_pages raw = inr P →
  os_makedirs out true w = (inr tt, w1) →
  start pdf out res w
  = pool_start raw res out P w1 (prepare_log pdf out raw).
Proof.
  intros H Hf HP Hm. unfold start. rewrite exec_prepare, Hf, HP, Hm.
  destruct (Z.leb_spec res 0); [lia |].
  apply os_makedirs_ok in Hm as ->.
  unfold open_rb. simpl. by rewrite Hf.
Qed.

(** A call either is back in the caller with an exception when [prepare]
    ends, or enters the pool phase from a valid document. *)
Lemma start_cases (pdf out : string) (res : Z) (w : world) :
  (∃ e w1 log1, start pdf out res w = State w1 log1 (Returned (Some e)) no_pool)
  ∨ (∃ raw P w1,
        0 < res ∧ files w !! pdf = Some raw ∧ pdf_num_pages raw = inr P
        ∧ os_makedirs out true w = (inr tt, w1)
        ∧ start pdf out res w
          = pool_start raw res out P w1 (prepare_log pdf out raw)).
Proof.
  destruct (Z.leb_spec res 0) as [Hr|Hr].
  { left. rewrite start_invalid_resolution by done. eauto. }
  destruct (files w !! pdf) as [raw|] eqn:Hf.
  2:{ left. rewrite start_missing_file by done. eauto. }
  destruct (pdf_num_pages raw) as [e|P] eqn:HP.
  { left. unfold start. rewrite exec_prepare, Hf, HP.
    destruct (Z.leb_spec res 0); [lia | eauto]. }
  destruct (os_makedirs out true w) as [[e|[]] w1] eqn:Hm.
  { left. unfold start. rewrite exec_prepare, Hf, HP, Hm.
    destruct (Z.leb_spec res 0); [lia | eauto]. }
  right. exists raw, P, w1. split_and!; try done. by apply start_pool.
Qed.

(** Once the call is back in the caller and the pool is empty, no thread
    can move. *)
Lemma step_returned (l : label) (s : state) (r : option exn) :
  st_disp s = Returned r → queue (st_pool s) = [] → running (st_pool s) = [] →
  step l s = None.
Proof.
  destruct s as [w log d p]; simpl. intros -> Hq Hr.
  destruct l; simpl; rewrite ?Hq, ?Hr; done.
Qed.

Lemma run_returned (sched : list label) (s s' : state) (r : option exn) :
  st_disp s = Returned r → queue (st_pool s) = [] → running (st_pool s) = [] →
  run sched s = Some s' → sched = [] ∧ s' = s.
Proof.
  intros Hd Hq Hr. destruct sched as [|l sched]; simpl.
  - by intros [= <-].
  - by rewrite (step_returned l s r).
Qed.

Lemma run_app (s1 s2 : list label) (s : state) :
  run (s1 ++ s2) s = run s1 s ≫= run s2.
Proof.
  revert s. induction s1 as [|l s1 IH]; intros s; simpl; [done |].
  destruct (step l s); simpl; [apply IH | done].
Qed.

(** The converter run alone. *)
Lemma exec_convert_page (raw : list Byte.byte) (res : Z) (out : string)
    (n : Z) (w : world) (log : list event) :
  exec (_convert_page_to_image raw res out n) w log
  = match convert_from_bytes raw res (n + 1) (n + 1) true with
    | inl e => (inl e, w, log ++ [EConvert raw res (n + 1) (n + 1) true])
    | inr [] =>
        (inl (Exn IndexError "list index out of range"), w,
         log ++ [EConvert raw res (n + 1) (n + 1) true])
    | inr (img :: _) =>
        if bool_decide (page_path out n ∈ dirs w)
        then (inl (Exn IsADirectoryError (page_path out n)), w,
              log ++ [EConvert raw res (n + 1) (n + 1) true;
                      ESave img (page_path out n) "TIFF" (res, res)])
        else (inr tt,
              World (<[page_path out n := image_encode img "TIFF" (res, res)]>
                       (files w))
                    (dirs w) (stdout w ++ [page_message out n]),
              log ++ [EConvert raw res (n + 1) (n + 1) true;
                      ESave img (page_path out n) "TIFF" (res, res);
                      EPrint (page_message out n)])
    end.
Proof.
  unfold _convert_page_to_image. simpl.
  destruct (convert_from_bytes raw res (n + 1) (n + 1) true) as [e|[|img rest]];
    [done | done |].
  simpl. unfold write_file. fold (page_path out n).
  case_bool_decide; simpl; by rewrite <- ?app_assoc.
Qed.

Lemma task_outcome_eq (raw : list Byte.byte) (res : Z) (out : string)
    (ds : gset string) (n : Z) :
  task_outcome raw res out ds n
  = match convert_from_bytes raw res (n + 1) (n + 1) true with
    | inl e => Some e
    | inr [] => Some (Exn IndexError "list index out of range")
    | inr (img :: _) =>
        if bool_decide (page_path out n ∈ ds)
        then Some (Exn IsADirectoryError (page_path out n))
        else None
    end.
Proof.
  unfold task_outcome. rewrite exec_convert_page.
  destruct (convert_from_bytes raw res (n + 1) (n + 1) true) as [e|[|img rest]];
    [done | done |].
  simpl. by case_bool_decide.
Qed.

(** ** Reading logs and futures *)

Lemma submitted_app (l1 l2 : list event) :
  submitted (l1 ++ l2) = submitted l1 ++ submitted l2.
Proof. apply omap_app. Qed.

Lemma observed_app (l1 l2 : list event) :
  observed (l1 ++ l2) = observed l1 ++ observed l2.
Proof. apply omap_app. Qed.

Lemma submitted_event_of {X} (c : call X) : submitted [event_of c] = [].
Proof. by destruct c. Qed.

Lemma observed_event_of {X} (c : call X) : observed [event_of c] = [].
Proof. by destruct c. Qed.

Lemma future_state_elem (n : Z) (fin : list (Z * option exn)) (r : option exn) :
  future_state n fin = Some r → (n, r) ∈ fin.
Proof.
  induction fin as [|[m r'] fin IH]; simpl; [done |].
  case_bool_decide as E.
  - intros [= ->]. subst. apply list_elem_of_here.
  - intros H. apply list_elem_of_further. auto.
Qed.

Lemma future_state_is_Some (n : Z) (fin : list (Z * option exn)) :
  n ∈ ids fin → is_Some (future_state n fin).
Proof.
  unfold ids. induction fin as [|[m r'] fin IH]; simpl.
  - by intros ?%elem_of_nil.
  - intros [->|H]%elem_of_cons.
    + rewrite bool_decide_eq_true_2 by done. eauto.
    + case_bool_decide; eauto.
Qed.

Lemma ids_app {A} (l1 l2 : list (Z * A)) : ids (l1 ++ l2) = ids l1 ++ ids l2.
Proof. apply fmap_app. Qed.

Lemma ids_insert {A} (l : list (Z * A)) (i : nat) (n : Z) (a b : A) :
  l !! i = Some (n, a) → ids (<[i := (n, b)]> l) = ids l.
Proof.
  intros H. unfold ids. rewrite list_fmap_insert. simpl.
  apply list_insert_id. by rewrite list_lookup_fmap, H.
Qed.

Lemma ids_delete {A} (l : list (Z * A)) (i : nat) (n : Z) (a : A) :
  l !! i = Some (n, a) → ids l ≡ₚ n :: ids (delete i l).
Proof.
  intros H. unfold ids. rewrite (delete_Permutation l i (n, a)) at 1 by done.
  done.
Qed.

Lemma NoDup_ids_functional {A} (l : list (Z * A)) (n : Z) (a b : A) :
  NoDup (ids l) → (n, a) ∈ l → (n, b) ∈ l → a = b.
Proof.
  unfold ids. induction l as [|[m c] l IH]; csimpl; intros Hnd Ha Hb.
  - by apply elem_of_nil in Ha.
  - apply NoDup_cons in Hnd as [Hnot Hnd].
    apply elem_of_cons in Ha as [Ha|Ha], Hb as [Hb|Hb].
    + congruence.
    + injection Ha as -> ->. destruct Hnot. apply list_elem_of_fmap.
      by exists (m, b).
    + injection Hb as -> ->. destruct Hnot. apply list_elem_of_fmap.
      by exists (m, a).
    + by apply IH.
Qed.

(** Case analysis on an enabled step. *)
Ltac step_inv H :=
  simpl in H;
  repeat match type of H with
    | match ?x with _ => _ end = Some _ => destruct x eqn:?
    | (if ?b then _ else _) = Some _ => destruct b eqn:?
    | (let '(_, _) := ?x in _) = Some _ => destruct x eqn:?
    end; try discriminate H; injection H as <-.

(** ** The bound on the pool *)

Lemma pool_bounded_step (l : label) (s s' : state) :
  step l s = Some s' → pool_bounded (st_pool s) → pool_bounded (st_pool s').
Proof.
  destruct s as [w log d p]. unfold pool_bounded. intros H (Hr & Ht & Hm).
  destruct l; step_inv H; simpl in *; try done.
  - case_bool_decide; split_and!; lia.
  - rewrite length_app. simpl. case_bool_decide; [| done]. split_and!; lia.
  - rewrite length_delete by eauto. split_and!; lia.
  - rewrite length_delete by eauto. split_and!; lia.
  - rewrite length_insert. done.
Qed.

(** ** Every submitted page is accounted for *)

Lemma disp_ok_mono (raw : list Byte.byte) (res : Z) (out : string) (P : nat)
    (log log' : list event) (fin fin' : list (Z * option exn))
    (d : dispatcher) :
  submitted log' = submitted log → observed log' = observed log →
  (∀ x, x ∈ fin → x ∈ fin') →
  disp_ok raw res out P log fin d → disp_ok raw res out P log' fin' d.
Proof.
  intros Hs Ho Hf. destruct d as [raw' res' out' todo futs|pending|r|r];
    simpl; rewrite ?Hs, ?Ho.
  - done.
  - intros (? & ? & H). split_and!; auto.
  - intros (? & H). split; [done |]. destruct r as [e|]; [| by auto].
    destruct H as (pre & n & ? & ? & ?). exists pre, n. split_and!; auto.
  - intros (? & H). split; [done |]. destruct r as [e|]; [| by auto].
    destruct H as (pre & n & ? & ? & ?). exists pre, n. split_and!; auto.
Qed.

Lemma accounted_step (raw : list Byte.byte) (res : Z) (out : string) (P : nat)
    (l : label) (s s' : state) :
  step l s = Some s' → accounted raw res out P s → accounted raw res out P s'.
Proof.
  destruct s as [w log d p]. unfold accounted.
  intros H (Hd & Hperm & Hq & Hmax & Hthr & Hret).
  destruct l; step_inv H; simpl in *; subst; simpl in *.
  - (* the submission loop ends *)
    destruct Hd as (-> & -> & -> & -> & Hr & Ho). rewrite app_nil_r in Hr.
    split_and!; try done. by rewrite Ho, Hr.
    intros m. rewrite Ho. by intros ?%elem_of_nil.
  - (* one submission *)
    destruct Hd as (-> & -> & -> & -> & Hr & Ho).
    rewrite submitted_app, observed_app, Ho. simpl.
    split_and!; try done.
    + by rewrite <- app_assoc.
    + rewrite ids_app, Hperm. simpl. by solve_Permutation.
    + intros n prg [Hin|Hin%list_elem_of_singleton]%elem_of_app; [by auto |].
      by injection Hin as -> ->.
    + intros _. case_bool_decide; lia.
  - (* the collection loop ends *)
    destruct Hd as (Hs & Hp & Ho). rewrite app_nil_r in Hp.
    split_and!; try done. intros n Hn. apply Ho. by rewrite Hp.
  - (* back in the caller *)
    destruct Hd. split_and!; try done.
  - (* a failed future is observed *)
    destruct Hd as (Hs & Hp & Ho).
    rewrite submitted_app, observed_app. simpl. rewrite app_nil_r.
    split_and!; try done.
    eexists _, _. split_and!; [done | by apply future_state_elem | done].
  - (* a future that went well is observed *)
    destruct Hd as (Hs & Hp & Ho).
    rewrite submitted_app, observed_app. simpl. rewrite app_nil_r.
    split_and!; try done.
    + rewrite <- Hp. rewrite <- app_assoc. simpl.
      apply Permutation_app_head. symmetry. by apply delete_Permutation.
    + intros m [Hm|Hm%list_elem_of_singleton]%elem_of_app; [by auto |].
      subst. by apply future_state_elem.
  - (* a worker takes the head of the queue *)
    match goal with Hqe : queue p = _ |- _ => rewrite Hqe in * end.
    split_and!; try done.
    + rewrite Hperm, ids_app. unfold ids. simpl. by solve_Permutation.
    + intros n prg Hin. apply Hq. by apply list_elem_of_further.
    + intros _. match goal with Hb : bool_decide _ = true |- _ =>
        apply bool_decide_eq_true_1 in Hb; lia end.
    + intros r ->. by destruct (Hret r eq_refl).
  - (* a work item returns *)
    split_and!; try done.
    + eapply disp_ok_mono, Hd; [done | done |].
      intros x Hx. apply elem_of_app. by left.
    + rewrite Hperm, ids_app.
      match goal with Hl : running p !! i = Some _ |- _ =>
        rewrite (ids_delete _ _ _ _ Hl) end.
      simpl. by solve_Permutation.
    + intros r ->. destruct (Hret r eq_refl) as [_ Hrun].
      by rewrite Hrun in *.
  - (* a work item raises *)
    split_and!; try done.
    + eapply disp_ok_mono, Hd; [done | done |].
      intros x Hx. apply elem_of_app. by left.
    + rewrite Hperm, ids_app.
      match goal with Hl : running p !! i = Some _ |- _ =>
        rewrite (ids_delete _ _ _ _ Hl) end.
      simpl. by solve_Permutation.
    + intros r ->. destruct (Hret r eq_refl) as [_ Hrun].
      by rewrite Hrun in *.
  - (* a work item makes a call *)
    split_and!; try done.
    + eapply disp_ok_mono, Hd; [| | done].
      * by rewrite submitted_app, submitted_event_of, app_nil_r.
      * by rewrite observed_app, observed_event_of, app_nil_r.
    + rewrite submitted_app, submitted_event_of, app_nil_r.
      by erewrite ids_insert.
    + intros r ->. destruct (Hret r eq_refl) as [_ Hrun].
      by rewrite Hrun in *.
Qed.

(** ** The work items and the files they write *)

Lemma accounted_prefix (raw : list Byte.byte) (res : Z) (out : string)
    (P : nat) (s : state) :
  accounted raw res out P s → ∃ todo, submitted (st_log s) ++ todo = range P.
Proof.
  intros (Hd & _). destruct (st_disp s); simpl in Hd.
  - destruct Hd as (_ & _ & _ & _ & H & _). eauto.
  - destruct Hd as (H & _). exists []. by rewrite app_nil_r.
  - destruct Hd as (H & _). exists []. by rewrite app_nil_r.
  - destruct Hd as (H & _). exists []. by rewrite app_nil_r.
Qed.

Lemma accounted_NoDup (raw : list Byte.byte) (res : Z) (out : string)
    (P : nat) (s : state) :
  accounted raw res out P s →
  NoDup (ids (queue (st_pool s)) ++ ids (running (st_pool s))
         ++ ids (finished (st_pool s))).
Proof.
  intros Ha. destruct (accounted_prefix _ _ _ _ _ Ha) as [todo Ht].
  destruct Ha as (_ & Hperm & _). rewrite <- Hperm.
  pose proof (NoDup_range P) as Hn. rewrite <- Ht in Hn.
  by apply NoDup_app in Hn as (? & _).
Qed.

Lemma accounted_in_range (raw : list Byte.byte) (res : Z) (out : string)
    (P : nat) (s : state) (n : Z) :
  accounted raw res out P s →
  n ∈ ids (queue (st_pool s)) ++ ids (running (st_pool s))
      ++ ids (finished (st_pool s)) →
  n ∈ range P.
Proof.
  intros Ha Hn. destruct (accounted_prefix _ _ _ _ _ Ha) as [todo Ht].
  destruct Ha as (_ & Hperm & _). rewrite <- Hperm in Hn.
  rewrite <- Ht. apply elem_of_app. by left.
Qed.

Lemma running_in_range (raw : list Byte.byte) (res : Z) (out : string)
    (P : nat) (s : state) (i : nat) (n : Z) (prg : prog unit) :
  accounted raw res out P s → running (st_pool s) !! i = Some (n, prg) →
  n ∈ range P.
Proof.
  intros Ha Hl. eapply accounted_in_range; [done |].
  rewrite !elem_of_app. right; left. unfold ids.
  apply list_elem_of_fmap. exists (n, prg). split; [done |].
  by eapply list_elem_of_lookup_2.
Qed.

Lemma finished_in_range (raw : list Byte.byte) (res : Z) (out : string)
    (P : nat) (s : state) (n : Z) (r : option exn) :
  accounted raw res out P s → (n, r) ∈ finished (st_pool s) → n ∈ range P.
Proof.
  intros Ha Hl. eapply accounted_in_range; [done |].
  rewrite !elem_of_app. right; right. unfold ids.
  apply list_elem_of_fmap. by exists (n, r).
Qed.

(** Two work items being run are for different pages, and so are a work
    item being run and a done future. *)
Lemma running_distinct (raw : list Byte.byte) (res : Z) (out : string)
    (P : nat) (s : state) (i j : nat) (n m : Z) (prg prg' : prog unit) :
  accounted raw res out P s →
  running (st_pool s) !! i = Some (n, prg) →
  running (st_pool s) !! j = Some (m, prg') →
  i ≠ j → n ≠ m.
Proof.
  intros Ha Hi Hj Hne ->. apply accounted_NoDup in Ha.
  apply NoDup_app in Ha as (_ & _ & Ha). apply NoDup_app in Ha as (Ha & _).
  apply Hne. eapply NoDup_lookup; [exact Ha | |]; unfold ids;
    rewrite list_lookup_fmap; [by rewrite Hi | by rewrite Hj].
Qed.

Lemma running_not_finished (raw : list Byte.byte) (res : Z) (out : string)
    (P : nat) (s : state) (i : nat) (n m : Z) (prg : prog unit)
    (r : option exn) :
  accounted raw res out P s →
  running (st_pool s) !! i = Some (n, prg) →
  (m, r) ∈ finished (st_pool s) → n ≠ m.
Proof.
  intros Ha Hi Hf ->. apply accounted_NoDup in Ha.
  apply NoDup_app in Ha as (_ & _ & Ha). apply NoDup_app in Ha as (_ & Ha & _).
  apply (Ha m); unfold ids; apply list_elem_of_fmap.
  - exists (m, prg). split; [done |]. by eapply list_elem_of_lookup_2.
  - by exists (m, r).
Qed.

Lemma phase_transport (raw : list Byte.byte) (res : Z) (out : string)
    (w w' : world) (log log' : list event) (n : Z) (prg : prog unit) :
  dirs w' = dirs w →
  files w' !! page_path out n = files w !! page_path out n →
  (∀ e, e ∈ log → e ∈ log') →
  phase raw res out w log n prg → phase raw res out w' log' n prg.
Proof.
  intros Hd Hf Hl. unfold phase. rewrite Hd, Hf.
  intros [?|[? ?]]; [by left | right]. split; auto.
Qed.

Lemma tasks_ok_log (raw : list Byte.byte) (res : Z) (out : string) (P : nat)
    (w1 w : world) (log log' : list event) (d d' : dispatcher) (p p' : pool) :
  (∀ e, e ∈ log → e ∈ log') →
  running p' = running p → finished p' = finished p →
  tasks_ok raw res out P w1 (State w log d p) →
  tasks_ok raw res out P w1 (State w log' d' p').
Proof.
  intros Hl Hr Hf (Hdirs & Hfiles & Hrun & Hfin). unfold tasks_ok. simpl in *.
  rewrite Hr, Hf. split_and!; [done | done | |].
  - intros i n prg Hi. eapply phase_transport, Hrun; eauto.
  - intros n r Hn. destruct (Hfin n r Hn) as (? & ? & ?). split_and!; auto.
Qed.

(** The work item at position [i] moves on; the world changes at most at
    the path of its page. *)
Lemma tasks_ok_update (raw : list Byte.byte) (res : Z) (out : string)
    (P : nat) (w1 w w' : world) (log log' : list event) (d : dispatcher)
    (p : pool) (i : nat) (n : Z) (prg prg' : prog unit) :
  accounted raw res out P (State w log d p) →
  tasks_ok raw res out P w1 (State w log d p) →
  running p !! i = Some (n, prg) →
  dirs w' = dirs w →
  (∀ f, f ≠ page_path out n → files w' !! f = files w !! f) →
  (∀ e, e ∈ log → e ∈ log') →
  phase raw res out w' log' n prg' →
  tasks_ok raw res out P w1
    (State w' log' d
       (Pool (max_workers p) (threads p) (queue p)
          (<[i := (n, prg')]> (running p)) (finished p))).
Proof.
  intros Ha (Hdirs & Hfiles & Hrun & Hfin) Hl Hd Hf Hlog Hph.
  assert (n ∈ range P) as Hn by (eapply running_in_range; [exact Ha | exact Hl]).
  assert (i < length (running p))%nat as Hi by (eapply lookup_lt_Some; eauto).
  assert (∀ m, m ∈ range P → n ≠ m →
               files w' !! page_path out m = files w !! page_path out m) as Hm.
  { intros m Hm Hne. apply Hf. intros Heq. apply Hne.
    apply elem_of_range in Hn, Hm. eapply page_path_inj, eq_sym, Heq; lia. }
  unfold tasks_ok. simpl in *. split_and!.
  - congruence.
  - intros f Hp. rewrite Hf by auto. auto.
  - intros j m prg0 Hj. destruct (decide (i = j)) as [<-|Hne].
    + rewrite list_lookup_insert_eq in Hj by done. by injection Hj as <- <-.
    + rewrite list_lookup_insert_ne in Hj by done.
      eapply phase_transport, Hrun; eauto. apply Hm.
      * eapply running_in_range; [exact Ha | exact Hj].
      * eapply running_distinct; [exact Ha | exact Hl | exact Hj | done].
  - intros m r Hin. destruct (Hfin m r Hin) as (? & ? & Hr).
    split_and!; auto. intros Hnone. destruct (Hr Hnone) as (img & rest & ? & ?).
    exists img, rest. split; [done |]. rewrite Hm; [done | |].
    + eapply finished_in_range; [exact Ha | exact Hin].
    + eapply running_not_finished; [exact Ha | exact Hl | exact Hin].
Qed.

(** The work item at position [i] is over. *)
Lemma tasks_ok_finish (raw : list Byte.byte) (res : Z) (out : string)
    (P : nat) (w1 w : world) (log : list event) (d : dispatcher)
    (p : pool) (i : nat) (n : Z) (prg : prog unit) (r : option exn) :
  tasks_ok raw res out P w1 (State w log d p) →
  running p !! i = Some (n, prg) →
  EConvert raw res (n + 1) (n + 1) true ∈ log →
  r = task_outcome raw res out (dirs w) n →
  (r = None →
   ∃ img rest,
     convert_from_bytes raw res (n + 1) (n + 1) true = inr (img :: rest)
     ∧ files w !! page_path out n = Some (image_encode img "TIFF" (res, res))) →
  tasks_ok raw res out P w1
    (State w log d
       (Pool (max_workers p) (threads p) (queue p)
          (delete i (running p)) (finished p ++ [(n, r)]))).
Proof.
  intros (Hdirs & Hfiles & Hrun & Hfin) Hl Hlog Hr Hnone.
  unfold tasks_ok. simpl in *. split_and!; [done | done | |].
  - intros j m prg0 Hj. rewrite list_lookup_delete in Hj.
    case_decide; eauto.
  - intros m r0 [Hin|Hin%list_elem_of_singleton]%elem_of_app; [by auto |].
    injection Hin as -> ->. by rewrite <- Hdirs.
Qed.

Lemma tasks_ok_step (raw : list Byte.byte) (res : Z) (out : string) (P : nat)
    (w1 : world) (l : label) (s s' : state) :
  step l s = Some s' → accounted raw res out P s →
  tasks_ok raw res out P w1 s → tasks_ok raw res out P w1 s'.
Proof.
  intros H Ha Ht. destruct s as [w log d p]. destruct l.
  - (* the dispatcher *)
    step_inv H; (eapply tasks_ok_log; [| | | exact Ht]); try done.
    intros e He. apply elem_of_app. by left.
  - (* a future is observed *)
    step_inv H; (eapply tasks_ok_log; [| | | exact Ht]); try done;
      intros e' He; apply elem_of_app; by left.
  - (* a worker takes the head of the queue *)
    destruct Ht as (Hdirs & Hfiles & Hrun & Hfin).
    step_inv H; unfold tasks_ok; simpl in *; (split_and!; [done | done | | done]).
    intros i n prg [Hl|[_ Hl]]%lookup_app_Some; [by eauto |].
    apply list_lookup_singleton_Some in Hl as [_ ->].
    left. destruct Ha as (_ & _ & Hq & _). apply Hq. simpl.
    match goal with Hqe : queue p = _ |- _ => rewrite Hqe end.
    apply list_elem_of_here.
  - (* a worker goes on with its work item *)
    simpl in H. destruct (running p !! i) as [[n prg]|] eqn:Hl; [| done].
    assert (n ∈ range P) as Hn by (eapply running_in_range; [exact Ha | exact Hl]).
    assert (i < length (running p))%nat as Hi by (eapply lookup_lt_Some; eauto).
    pose proof Ht as (Hdirs & Hfiles & Hrun & Hfin). simpl in *.
    destruct (Hrun i n prg Hl)
      as [-> | (Hlog & [(e & -> & Hout)
                       | [(img & rest & Hc & ->)
                         | (img & rest & Hc & Hout & Hfile & [-> | ->])]])].
    + (* rendering *)
      simpl in H. injection H as <-.
      eapply tasks_ok_update with (d := d); eauto.
      * intros e He. apply elem_of_app. by left.
      * right. split; [apply elem_of_app; right; apply list_elem_of_here |].
        rewrite task_outcome_eq.
        destruct (convert_from_bytes raw res (n + 1) (n + 1) true)
          as [e|[|img rest]]; [left; eauto | left; eauto |].
        right; left. by exists img, rest.
    + (* raised: the future is done *)
      simpl in H. injection H as <-.
      eapply tasks_ok_finish with (d := d); eauto. done.
    + (* saving *)
      simpl in H. unfold write_file in H.
      case_bool_decide as Hdir; simpl in H; injection H as <-.
      * eapply tasks_ok_update with (d := d); eauto.
        -- intros e He. apply elem_of_app. by left.
        -- right. split; [apply elem_of_app; by left |]. left.
           eexists. split; [done |].
           by rewrite task_outcome_eq, Hc, bool_decide_eq_true_2.
      * eapply tasks_ok_update with (d := d); eauto; simpl.
        -- intros f Hf. by rewrite lookup_insert_ne.
        -- intros e He. apply elem_of_app. by left.
        -- right. split; [apply elem_of_app; by left |]. right; right.
           exists img, rest. split_and!; [done | | | by left].
           ++ by rewrite task_outcome_eq, Hc, bool_decide_eq_false_2.
           ++ simpl. by rewrite lookup_insert_eq.
    + (* printing *)
      simpl in H. injection H as <-.
      eapply tasks_ok_update with (d := d); eauto; simpl.
      * intros e He. apply elem_of_app. by left.
      * right. split; [apply elem_of_app; by left |]. right; right.
        exists img, rest. split_and!; [done | done | done | by right].
    + (* returned: the future is done *)
      simpl in H. injection H as <-.
      eapply tasks_ok_finish with (d := d); eauto.
Qed.

(** ** The invariant holds along every schedule *)

Lemma inv_step (raw : list Byte.byte) (res : Z) (out : string) (P : nat)
    (w1 : world) (l : label) (s s' : state) :
  step l s = Some s' → inv raw res out P w1 s → inv raw res out P w1 s'.
Proof.
  intros H (Hb & Ha & Ht). split_and!.
  - by eapply pool_bounded_step.
  - by eapply accounted_step.
  - by eapply tasks_ok_step.
Qed.

Lemma inv_run (raw : list Byte.byte) (res : Z) (out : string) (P : nat)
    (w1 : world) (sched : list label) (s s' : state) :
  run sched s = Some s' → inv raw res out P w1 s → inv raw res out P w1 s'.
Proof.
  revert s. induction sched as [|l sched IH]; intros s; simpl.
  - by intros [= <-].
  - destruct (step l s) as [s1|] eqn:Hs; [| done].
    intros H Hi. eapply IH; [exact H |]. by eapply inv_step.
Qed.

Lemma inv_pool_start (raw : list Byte.byte) (res : Z) (out : string) (P : nat)
    (w1 : world) (log1 : list event) :
  submitted log1 = [] → observed log1 = [] →
  inv raw res out P w1 (pool_start raw res out P w1 log1).
Proof.
  intros Hs Ho. unfold inv, pool_start, pool_bounded, accounted, tasks_ok.
  simpl. rewrite Hs, Ho. split_and!; try done; try lia.
  - by intros ? ? ?%elem_of_nil.
  - by intros ? ? ?%elem_of_nil.
Qed.

Lemma pool_bounded_run (sched : list label) (s s' : state) :
  run sched s = Some s' → pool_bounded (st_pool s) → pool_bounded (st_pool s').
Proof.
  revert s. induction sched as [|l sched IH]; intros s; simpl.
  - by intros [= <-].
  - destruct (step l s) as [s1|] eqn:Hs; [| done].
    intros H Hi. eapply IH; [exact H |]. by eapply pool_bounded_step.
Qed.

(** ** Every call can be taken back to the caller *)

Lemma delete_insert_same {A} (l : list A) (i : nat) (x : A) :
  delete i (<[i := x]> l) = delete i l.
Proof.
  revert i. induction l as [|y l IH]; intros [|i]; simpl; [done .. |].
  by rewrite IH.
Qed.

(** The worker at position [i] can run its work item to the end. *)
Lemma finish_task (prg : prog unit) :
  ∀ (w : world) (log : list event) (d : dispatcher) (p : pool) (i : nat)
    (n : Z),
    running p !! i = Some (n, prg) →
    ∃ sched w' log' r,
      run sched (State w log d p)
      = Some (State w' log' d
                (Pool (max_workers p) (threads p) (queue p)
                   (delete i (running p)) (finished p ++ [(n, r)]))).
Proof.
  induction prg as [a|e|X c k IH]; intros w log d p i n Hl.
  - exists [Work i], w, log, None. simpl. by rewrite Hl.
  - exists [Work i], w, log, (Some e). simpl. by rewrite Hl.
  - assert (i < length (running p))%nat as Hi by (eapply lookup_lt_Some; eauto).
    destruct (handle c w) as [[e|x] w'] eqn:Hh.
    + exists [Work i; Work i], w', (log ++ [event_of c]), (Some e).
      simpl. rewrite Hl, Hh. simpl.
      rewrite list_lookup_insert_eq by done. by rewrite delete_insert_same.
    + destruct (IH x w' (log ++ [event_of c]) d
                  (Pool (max_workers p) (threads p) (queue p)
                     (<[i := (n, k x)]> (running p)) (finished p)) i n)
        as (sched & w2 & log2 & r & Hrun).
      { simpl. by rewrite list_lookup_insert_eq. }
      exists (Work i :: sched), w2, log2, r.
      simpl in *. rewrite Hl, Hh. simpl. rewrite Hrun.
      by rewrite delete_insert_same.
Qed.

(** The workers can run all their work items to the end. *)
Lemma drain_running (rs : list (Z * prog unit)) :
  ∀ (w : world) (log : list event) (d : dispatcher) (mw th : nat)
    (q : list (Z * prog unit)) (fin : list (Z * option exn)),
    ∃ sched w' log' fin',
      run sched (State w log d (Pool mw th q rs fin))
      = Some (State w' log' d (Pool mw th q [] fin')).
Proof.
  induction rs as [|[n prg] rs IH]; intros w log d mw th q fin.
  - by exists [], w, log, fin.
  - destruct (finish_task prg w log d (Pool mw th q ((n, prg) :: rs) fin) 0 n)
      as (s1 & w1 & log1 & r & H1); [done |].
    simpl in H1.
    destruct (IH w1 log1 d mw th q (fin ++ [(n, r)]))
      as (s2 & w2 & log2 & fin2 & H2).
    exists (s1 ++ s2), w2, log2, fin2. by rewrite run_app, H1.
Qed.

(** With one thread at least, the pool can be emptied. *)
Lemma drain_pool (q : list (Z * prog unit)) :
  ∀ (w : world) (log : list event) (d : dispatcher) (mw th : nat)
    (rs : list (Z * prog unit)) (fin : list (Z * option exn)),
    (q ≠ [] → 0 < th)%nat →
    ∃ sched w' log' fin',
      run sched (State w log d (Pool mw th q rs fin))
      = Some (State w' log' d (Pool mw th [] [] fin')).
Proof.
  induction q as [|item q IH]; intros w log d mw th rs fin Hth.
  - apply drain_running.
  - destruct (drain_running rs w log d mw th (item :: q) fin)
      as (s1 & w1 & log1 & fin1 & H1).
    destruct (IH w1 log1 d mw th [item] fin1) as (s2 & w2 & log2 & fin2 & H2).
    { intros _. apply Hth. done. }
    exists (s1 ++ Start :: s2), w2, log2, fin2.
    rewrite run_app, H1. simpl.
    rewrite bool_decide_eq_true_2 by (apply Hth; done). done.
Qed.

(** The dispatcher can submit all the pages. *)
Lemma submit_all (todo : list Z) :
  ∀ (w : world) (log : list event) (raw : list Byte.byte) (res : Z)
    (out : string) (futures : list Z) (p : pool),
    ∃ sched log' futures' p',
      run sched (State w log (Submitting raw res out todo futures) p)
      = Some (State w log' (AsCompleted futures') p').
Proof.
  induction todo as [|n todo IH]; intros w log raw res out futures p.
  - by exists [Disp], log, futures, p.
  - destruct (IH w (log ++ [ESubmit n]) raw res out (futures ++ [n])
                (submit n (_convert_page_to_image raw res out n) p))
      as (sched & log' & futures' & p' & H).
    by exists (Disp :: sched), log', futures', p'.
Qed.

(** Once the pool is empty, the dispatcher can collect the futures. *)
Lemma collect_all (pending : list Z) :
  ∀ (w : world) (log : list event) (p : pool),
    (∀ n, n ∈ pending → n ∈ ids (finished p)) →
    ∃ sched log' r,
      run sched (State w log (AsCompleted pending) p)
      = Some (State w log' (Shutdown r) p).
Proof.
  induction pending as [|n pending IH]; intros w log p Hp.
  - by exists [Disp], log, None.
  - destruct (future_state_is_Some n (finished p)) as [[e|] Hf].
    { apply Hp, list_elem_of_here. }
    + exists [Yield 0%nat], (log ++ [EResult n]), (Some e). simpl.
      by rewrite Hf.
    + destruct (IH w (log ++ [EResult n]) p) as (sched & log' & r & H).
      { intros m Hm. by apply Hp, list_elem_of_further. }
      exists (Yield 0%nat :: sched), log', r. simpl. by rewrite Hf.
Qed.

Lemma complete_from_collecting (raw : list Byte.byte) (res : Z) (out : string)
    (P : nat) (w1 : world) (s : state) :
  inv raw res out P w1 s →
  (∃ pending, st_disp s = AsCompleted pending) ∨ (∃ r, st_disp s = Shutdown r) →
  ∃ sched s' r, run sched s = Some s' ∧ st_disp s' = Returned r.
Proof.
  intros Hinv Hd. destruct s as [w log d [mw th q rs fin]].
  destruct (drain_pool q w log d mw th rs fin) as (s1 & w2 & log2 & fin2 & H1).
  { destruct Hinv as (_ & (_ & _ & _ & _ & Hth & _) & _). exact Hth. }
  pose proof (inv_run _ _ _ _ _ _ _ _ H1 Hinv) as Hinv2.
  simpl in Hd. destruct Hd as [[pending ->]|[r ->]].
  - destruct (collect_all pending w2 log2 (Pool mw th [] [] fin2))
      as (s2 & log3 & r & H2).
    { intros n Hn. destruct Hinv2 as (_ & ((Hs & Hp & _) & Hperm & _) & _).
      simpl in *. rewrite Hs in Hperm. rewrite <- Hperm, <- Hp.
      apply elem_of_app. by right. }
    exists (s1 ++ s2 ++ [Disp]), (State w2 log3 (Returned r) (Pool mw th [] [] fin2)), r.
    split; [| done]. by rewrite run_app, H1; simpl; rewrite run_app, H2.
  - exists (s1 ++ [Disp]), (State w2 log2 (Returned r) (Pool mw th [] [] fin2)), r.
    split; [| done]. by rewrite run_app, H1.
Qed.

(** From every state of the pool phase, some schedule takes the call back
    to the caller. *)
Lemma can_return (raw : list Byte.byte) (res : Z) (out : string)
    (P : nat) (w1 : world) (s : state) :
  inv raw res out P w1 s →
  ∃ sched s' r, run sched s = Some s' ∧ st_disp s' = Returned r.
Proof.
  intros Hinv. destruct (st_disp s) as [raw' res' out' todo futs|pending|r|r] eqn:Hd.
  - destruct s as [w log d p]. simpl in Hd. subst d.
    destruct (submit_all todo w log raw' res' out' futs p)
      as (s1 & log' & futs' & p' & H1).
    pose proof (inv_run _ _ _ _ _ _ _ _ H1 Hinv) as Hinv1.
    destruct (complete_from_collecting _ _ _ _ _ _ Hinv1)
      as (s2 & s' & r & H2 & Hr); [left; by eexists |].
    exists (s1 ++ s2), s', r. split; [| done]. by rewrite run_app, H1.
  - eapply complete_from_collecting; [done | left; by eexists].
  - eapply complete_from_collecting; [done | right; by eexists].
  - by exists [], s, r.
Qed.

(** ** What a call gives back *)

Lemma extract_Some (pdf out : string) (res : Z) (sched : list label)
    (w w' : world) (r : option exn) (log : list event) :
  extract_tiff_from_pdf pdf out res sched w = Some (r, w', log) ↔
  ∃ p, run sched (start pdf out res w) = Some (State w' log (Returned r) p).
Proof.
  unfold extract_tiff_from_pdf. split.
  - destruct (run sched (start pdf out res w)) as [[w2 log2 [| | |r2] p]|];
      try done. intros [= -> -> ->]. by exists p.
  - intros [p ->]. done.
Qed.

(** A call that [prepare] ends returns under the empty schedule only. *)
Lemma extract_prepare_failed (pdf out : string) (res : Z) (w w1 : world)
    (log1 : list event) (e : exn) :
  start pdf out res w = State w1 log1 (Returned (Some e)) no_pool →
  extract_tiff_from_pdf pdf out res [] w = Some (Some e, w1, log1)
  ∧ ∀ sched r w' log,
      extract_tiff_from_pdf pdf out res sched w = Some (r, w', log) →
      sched = [] ∧ r = Some e ∧ w' = w1 ∧ log = log1.
Proof.
  intros Hs. split.
  - unfold extract_tiff_from_pdf. simpl. by rewrite Hs.
  - intros sched r w' log [p Hrun]%extract_Some. rewrite Hs in Hrun.
    apply (run_returned _ _ _ (Some e)) in Hrun as [-> Heq]; [| done ..].
    by injection Heq as -> -> ->.
Qed.

(** ** The claims about validation *)

(** C4.  When [resolution <= 0] the call raises
    [ValueError("Resolution must be a positive integer")] under the empty
    schedule, and however it is scheduled it gives nothing else: the world
    is the one it was called in (the output directory is not created) and
    the log is empty (no existence check, no open, no read, no
    [makedirs], no submission). *)
Theorem nonpositive_resolution_rejected (pdf out : string) (res : Z)
    (w : world) :
  res ≤ 0 →
  extract_tiff_from_pdf pdf out res [] w
  = Some (Some (Exn ValueError "Resolution must be a positive integer"), w, [])
  ∧ ∀ sched r w' log,
      extract_tiff_from_pdf pdf out res sched w = Some (r, w', log) →
      r = Some (Exn ValueError "Resolution must be a positive integer")
      ∧ w' = w ∧ log = [].
Proof.
  intros Hres.
  destruct (extract_prepare_failed pdf out res w w []
              (Exn ValueError "Resolution must be a positive integer"))
    as [H1 H2]; [by apply start_invalid_resolution |].
  split; [done |]. intros sched r w' log H.
  by destruct (H2 _ _ _ _ H) as (_ & -> & -> & ->).
Qed.

(** C5, in the form the code satisfies.  When the path names no file and the resolution is
    positive, the call raises [ValueError("PDF file not found: " + path)]:
    the class is that of the error for a resolution that is not positive,
    only the message differs.  The existence check is the only call made:
    the document is not opened, nothing is created or submitted, and the
    world is unchanged. *)
Theorem missing_file_rejected (pdf out : string) (res : Z) (w : world) :
  0 < res → files w !! pdf = None →
  extract_tiff_from_pdf pdf out res [] w
  = Some (Some (Exn ValueError ("PDF file not found: " +:+ pdf)), w,
          [EIsFile pdf])
  ∧ ∀ sched r w' log,
      extract_tiff_from_pdf pdf out res sched w = Some (r, w', log) →
      r = Some (Exn ValueError ("PDF file not found: " +:+ pdf))
      ∧ w' = w ∧ log = [EIsFile pdf].
Proof.
  intros Hres Hf.
  destruct (extract_prepare_failed pdf out res w w [EIsFile pdf]
              (Exn ValueError ("PDF file not found: " +:+ pdf)))
    as [H1 H2]; [by apply start_missing_file |].
  split; [done |]. intros sched r w' log H.
  by destruct (H2 _ _ _ _ H) as (_ & -> & -> & ->).
Qed.

(** ** The claims about the page converter *)

(** C6.  For a page index [n >= 0] the file name is ["page_"], then the
    decimal digits of [n + 1] behind as many zeros as it takes to reach
    four characters, then [".tiff"]; the digits between prefix and suffix
    have the value [n + 1] and are at least four; when [n + 1] has four
    digits or more none is added and none is dropped; index 0 gives
    [page_0001.tiff]; and this is the name of the file the converter
    saves, in the output directory. *)
Theorem page_file_name_format (n : Z) :
  0 ≤ n →
  let digits := str_int (n + 1) in
  let padded := zeros (4 - String.length digits) +:+ digits in
  page_file_name n = "page_" +:+ padded +:+ ".tiff"
  ∧ decimal_value digits = Some (n + 1)
  ∧ decimal_value padded = Some (n + 1)
  ∧ (4 ≤ String.length padded)%nat
  ∧ ((4 ≤ String.length digits)%nat → padded = digits)
  ∧ page_file_name 0 = "page_0001.tiff"
  ∧ ∀ raw res out w log img rest,
      convert_from_bytes raw res (n + 1) (n + 1) true = inr (img :: rest) →
      ESave img (os_path_join out (page_file_name n)) "TIFF" (res, res)
      ∈ (exec (_convert_page_to_image raw res out n) w log).2.
Proof.
  intros Hn digits padded. subst digits padded.
  rewrite (str_int_nonneg (n + 1)) by lia.
  split_and!.
  - unfold page_file_name. by rewrite format_04_nonneg by lia.
  - rewrite decimal_value_digits_of. f_equal. lia.
  - rewrite decimal_value_zeros, decimal_value_digits_of. f_equal. lia.
  - generalize (digits_of (n + 1)). intros s.
    assert (∀ k t, String.length (zeros k +:+ t) = (k + String.length t)%nat)
      as Hlen.
    { induction k as [|k IH]; intros t; simpl; [done | by rewrite IH]. }
    rewrite Hlen. lia.
  - intros Hlen.
    replace (4 - String.length (digits_of (n + 1)))%nat with 0%nat by lia.
    done.
  - done.
  - intros raw res out w log img rest Hc. rewrite exec_convert_page, Hc.
    fold (page_path out n). case_bool_decide; simpl;
      rewrite elem_of_app; right; apply elem_of_cons; right;
      apply list_elem_of_here.
Qed.

(** C7.  The converter run on page [n].  In every world, the first call
    it makes is one call of the rasterizer on the document bytes at the
    requested DPI with [first_page = last_page = n + 1] and
    [grayscale=True]; when the rasterizer raises or gives no image, there
    is no other call; otherwise the next call saves the first image at the
    page's path with format ["TIFF"] and [dpi=(resolution, resolution)].
    In a world that has the output directory, moreover: when the path is
    not itself a directory the file holds the encoding of that image
    under that format and that pair, the line for the page is printed and
    the converter returns; when it is one, the save raises and nothing is
    written or printed. *)
Theorem convert_page_calls (raw : list Byte.byte) (res : Z) (out : string)
    (n : Z) (w : world) (log : list event) :
  let path := os_path_join out (page_file_name n) in
  (∃ rest,
      (exec (_convert_page_to_image raw res out n) w log).2
      = log ++ EConvert raw res (n + 1) (n + 1) true :: rest
      ∧ match convert_from_bytes raw res (n + 1) (n + 1) true with
        | inr (img :: _) =>
            ∃ rest', rest = ESave img path "TIFF" (res, res) :: rest'
        | _ => rest = []
        end)
  ∧ (out ∈ dirs w →
     exec (_convert_page_to_image raw res out n) w log
     = match convert_from_bytes raw res (n + 1) (n + 1) true with
       | inl e => (inl e, w, log ++ [EConvert raw res (n + 1) (n + 1) true])
       | inr [] =>
           (inl (Exn IndexError "list index out of range"), w,
            log ++ [EConvert raw res (n + 1) (n + 1) true])
       | inr (img :: _) =>
           if bool_decide (path ∈ dirs w)
           then (inl (Exn IsADirectoryError path), w,
                 log ++ [EConvert raw res (n + 1) (n + 1) true;
                         ESave img path "TIFF" (res, res)])
           else (inr tt,
                 World (<[path := image_encode img "TIFF" (res, res)]> (files w))
                       (dirs w)
                       (stdout w ++ ["Saved page " +:+ str_int (n + 1)
                                     +:+ " as " +:+ path]),
                 log ++ [EConvert raw res (n + 1) (n + 1) true;
                         ESave img path "TIFF" (res, res);
                         EPrint ("Saved page " +:+ str_int (n + 1)
                                 +:+ " as " +:+ path)])
       end).
Proof.
  intros path. split; [| intros _; apply exec_convert_page].
  rewrite exec_convert_page. fold (page_path out n). fold path.
  destruct (convert_from_bytes raw res (n + 1) (n + 1) true)
    as [e|[|img l]]; [by exists [] | by exists [] |].
  case_bool_decide; simpl; eexists; (split; [reflexivity | by eexists]).
Qed.

(** ** The claims about the dispatcher *)

Lemma run_inv_start (pdf out : string) (res : Z) (w w1 : world)
    (raw : list Byte.byte) (P : nat) (sched : list label) (s : state) :
  0 < res → files w !! pdf = Some raw → pdf_num_pages raw = inr P →
  os_makedirs out true w = (inr tt, w1) →
  run sched (start pdf out res w) = Some s →
  inv raw res out P w1 s.
Proof.
  intros Hres Hf HP Hm Hrun.
  rewrite (start_pool _ _ _ _ _ _ _ Hres Hf HP Hm) in Hrun.
  eapply inv_run; [exact Hrun |]. by apply inv_pool_start.
Qed.

Lemma finished_functional (raw : list Byte.byte) (res : Z) (out : string)
    (P : nat) (s : state) (n : Z) (a b : option exn) :
  accounted raw res out P s →
  (n, a) ∈ finished (st_pool s) → (n, b) ∈ finished (st_pool s) → a = b.
Proof.
  intros Ha%accounted_NoDup Hna Hnb.
  apply NoDup_app in Ha as (_ & _ & Ha). apply NoDup_app in Ha as (_ & _ & Ha).
  by eapply NoDup_ids_functional.
Qed.

(** When the call is back in the caller every page has a done future. *)
Lemma returned_all_finished (raw : list Byte.byte) (res : Z) (out : string)
    (P : nat) (w1 : world) (s : state) (r : option exn) (n : Z) :
  inv raw res out P w1 s → st_disp s = Returned r → n ∈ range P →
  ∃ r', (n, r') ∈ finished (st_pool s).
Proof.
  intros (_ & Ha & _) Hd Hn.
  destruct Ha as (Hdisp & Hperm & _ & _ & _ & Hret).
  destruct (Hret r Hd) as [Hq Hr]. rewrite Hd in Hdisp. simpl in Hdisp.
  destruct Hdisp as [Hs _]. rewrite Hs, Hq, Hr in Hperm. simpl in Hperm.
  rewrite Hperm in Hn. unfold ids in Hn.
  apply list_elem_of_fmap in Hn as ([m r'] & -> & Hin). by exists r'.
Qed.

(** C1.  A run on a document of [P] pages with a positive resolution that
    returns normally has submitted the page numbers [0, 1, ..., P - 1] in
    this order, each once; the [P] paths [page_path out n] are pairwise
    different; each of them holds the encoding of the first image
    rendered for its page; and every other path of the file system holds
    what it held before the call.  File names and paths of two different
    page indices differ. *)
Theorem one_file_per_page (pdf out : string) (res : Z) (w w' : world)
    (raw : list Byte.byte) (P : nat) (sched : list label)
    (log : list event) :
  0 < res → files w !! pdf = Some raw → pdf_num_pages raw = inr P →
  extract_tiff_from_pdf pdf out res sched w = Some (None, w', log) →
  submitted log = range P
  ∧ (∀ n, n ∈ range P ↔ 0 ≤ n < Z.of_nat P)
  ∧ NoDup (range P)
  ∧ NoDup (page_path out <$> range P)
  ∧ length (page_path out <$> range P) = P
  ∧ (∀ n, 0 ≤ n < Z.of_nat P →
       ∃ img rest,
         convert_from_bytes raw res (n + 1) (n + 1) true = inr (img :: rest)
         ∧ files w' !! page_path out n
           = Some (image_encode img "TIFF" (res, res)))
  ∧ (∀ f, f ∉ page_path out <$> range P → files w' !! f = files w !! f)
  ∧ (∀ i j, 0 ≤ i → 0 ≤ j → i ≠ j →
       page_file_name i ≠ page_file_name j
       ∧ page_path out i ≠ page_path out j).
Proof.
  intros Hres Hf HP [p Hrun]%extract_Some.
  destruct (start_cases pdf out res w)
    as [(e & w1 & log1 & Hs) | (raw' & P' & w1 & _ & Hf' & HP' & Hm & Hs)].
  { rewrite Hs in Hrun.
    by apply (run_returned _ _ _ (Some e)) in Hrun as [_ ?]. }
  rewrite Hf in Hf'. injection Hf' as <-. rewrite HP in HP'. injection HP' as <-.
  pose proof (run_inv_start _ _ _ _ _ _ _ _ _ Hres Hf HP Hm Hrun)
    as (_ & Ha & Ht).
  pose proof Ha as ((Hsub & Hall) & _). simpl in Hsub, Hall.
  destruct Ht as (_ & Hfiles & _ & Hfin). simpl in Hfiles, Hfin.
  apply os_makedirs_files in Hm as [Hm _].
  split_and!.
  - done.
  - apply elem_of_range.
  - apply NoDup_range.
  - apply NoDup_page_paths.
  - by rewrite length_fmap, length_range.
  - intros n Hn%elem_of_range.
    destruct (Hfin n None (Hall n Hn)) as (_ & _ & Hw). by apply Hw.
  - intros f Hnot. rewrite <- Hm. apply Hfiles. intros n Hn ->.
    apply Hnot. apply list_elem_of_fmap. by exists n.
  - intros i j Hi Hj Hne. split; intros Heq; apply Hne.
    + by apply page_file_name_inj.
    + by eapply page_path_inj.
Qed.

(** C2.  On a valid document whose output directory can be made, some
    schedule takes the call back to the caller, and whenever it is back:
    every page has a done future whose outcome is the one the converter
    has when run alone; when some future holds an exception, the call
    raises the exception of the last future the dispatcher asked for its
    result, all those asked before having gone well; when every future
    went well the call returns normally. *)
Theorem first_observed_failure_is_raised (pdf out : string) (res : Z)
    (w w1 : world) (raw : list Byte.byte) (P : nat) :
  0 < res → files w !! pdf = Some raw → pdf_num_pages raw = inr P →
  os_makedirs out true w = (inr tt, w1) →
  (∃ sched s r,
      run sched (start pdf out res w) = Some s ∧ st_disp s = Returned r)
  ∧ ∀ sched s r,
      run sched (start pdf out res w) = Some s → st_disp s = Returned r →
      let fin := finished (st_pool s) in
      (∀ n, 0 ≤ n < Z.of_nat P →
            (n, task_outcome raw res out (dirs w1) n) ∈ fin)
      ∧ ((∃ n e, (n, Some e) ∈ fin) →
         ∃ pre n e,
           r = Some e ∧ observed (st_log s) = pre ++ [n]
           ∧ (n, Some e) ∈ fin ∧ ∀ m, m ∈ pre → (m, None) ∈ fin)
      ∧ ((∀ n r', (n, r') ∈ fin → r' = None) → r = None).
Proof.
  intros Hres Hf HP Hm. split.
  - eapply can_return. eapply (run_inv_start _ _ _ _ _ _ _ []); eauto.
  - intros sched s r Hrun Hd fin.
    pose proof (run_inv_start _ _ _ _ _ _ _ _ _ Hres Hf HP Hm Hrun) as Hinv.
    pose proof Hinv as (_ & Ha & Ht).
    pose proof Ha as (Hdisp & _). rewrite Hd in Hdisp. simpl in Hdisp.
    destruct Hdisp as [_ Hr]. split_and!.
    + intros n Hn%elem_of_range.
      destruct (returned_all_finished _ _ _ _ _ _ _ _ Hinv Hd Hn) as [r' Hin].
      destruct Ht as (_ & _ & _ & Hfin).
      by destruct (Hfin n r' Hin) as (_ & <- & _).
    + intros (n & e & Hin). destruct r as [e'|].
      * destruct Hr as (pre & m & ? & ? & ?). by exists pre, m, e'.
      * assert (n ∈ range P) as Hn by (eapply finished_in_range; eauto).
        by pose proof (finished_functional _ _ _ _ _ _ _ _ Ha Hin (Hr n Hn)).
    + intros Hall. destruct r as [e'|]; [| done].
      destruct Hr as (pre & m & _ & Hin & _). by pose proof (Hall _ _ Hin).
Qed.

(** C3.  On a valid document whose output directory can be made, at every
    point of every schedule: a submitted page is in the queue, being run
    or done, never dropped; some schedule takes the call back to the
    caller from there, whatever has failed so far; and when the call is
    back in the caller, normally or not, the queue is empty, no work item
    is being run, and every page has a done future and its rasterizer
    call in the log. *)
Theorem returns_after_all_tasks (pdf out : string) (res : Z)
    (w w1 : world) (raw : list Byte.byte) (P : nat) (sched : list label)
    (s : state) :
  0 < res → files w !! pdf = Some raw → pdf_num_pages raw = inr P →
  os_makedirs out true w = (inr tt, w1) →
  run sched (start pdf out res w) = Some s →
  (∀ r, st_disp s = Returned r →
        queue (st_pool s) = [] ∧ running (st_pool s) = []
        ∧ ∀ n, 0 ≤ n < Z.of_nat P →
               (∃ r', (n, r') ∈ finished (st_pool s))
               ∧ EConvert raw res (n + 1) (n + 1) true ∈ st_log s)
  ∧ (∀ n, n ∈ submitted (st_log s) →
          n ∈ ids (queue (st_pool s)) ∨ n ∈ ids (running (st_pool s))
          ∨ n ∈ ids (finished (st_pool s)))
  ∧ (∃ sched' s' r, run sched' s = Some s' ∧ st_disp s' = Returned r).
Proof.
  intros Hres Hf HP Hm Hrun.
  pose proof (run_inv_start _ _ _ _ _ _ _ _ _ Hres Hf HP Hm Hrun) as Hinv.
  pose proof Hinv as (_ & Ha & Ht). split_and!.
  - intros r Hd. destruct Ha as (_ & _ & _ & _ & _ & Hret).
    destruct (Hret r Hd) as [Hq Hr]. split_and!; [done | done |].
    intros n Hn%elem_of_range.
    destruct (returned_all_finished _ _ _ _ _ _ _ _ Hinv Hd Hn) as [r' Hin].
    split; [by exists r' |]. destruct Ht as (_ & _ & _ & Hfin).
    by destruct (Hfin n r' Hin) as (? & _).
  - intros n Hn. destruct Ha as (_ & Hperm & _). rewrite Hperm in Hn.
    by rewrite !elem_of_app in Hn.
  - by eapply can_return.
Qed.

(** C9.  At every point of every schedule of every call, at most 20 work
    items are being run, by at most 20 threads; each of them is a page
    that was submitted to the pool; and while 20 are being run no worker
    can take another one from the queue. *)
Theorem at_most_20_running (pdf out : string) (res : Z) (w : world)
    (sched : list label) (s : state) :
  run sched (start pdf out res w) = Some s →
  (length (running (st_pool s)) ≤ 20)%nat
  ∧ (threads (st_pool s) ≤ 20)%nat
  ∧ (∀ n, n ∈ ids (running (st_pool s)) → n ∈ submitted (st_log s))
  ∧ ((20 ≤ length (running (st_pool s)))%nat → step Start s = None).
Proof.
  intros Hrun.
  assert (pool_bounded (st_pool s)) as (Hr & Ht & Hm).
  { eapply pool_bounded_run; [exact Hrun |]. unfold start, pool_bounded.
    destruct (exec (prepare pdf out res) w []) as [[[e|[raw P]] w1] log1];
      simpl; lia. }
  split_and!; [lia | lia | |].
  - destruct (start_cases pdf out res w)
      as [(e & w1 & log1 & Hs) | (raw & P & w1 & Hres & Hf & HP & Hm' & Hs)].
    + rewrite Hs in Hrun.
      apply (run_returned _ _ _ (Some e)) in Hrun as [_ ->]; [| done ..].
      simpl. by intros n ?%elem_of_nil.
    + pose proof (run_inv_start _ _ _ _ _ _ _ _ _ Hres Hf HP Hm' Hrun)
        as (_ & (_ & Hperm & _) & _).
      intros n Hn. rewrite Hperm, !elem_of_app. by right; left.
  - intros Hfull. destruct s as [w' log d p]. simpl in *.
    destruct (queue p); [done |].
    rewrite bool_decide_eq_false_2; [done | lia].
Qed.

(** C8.  Directory creation accepts a directory that exists and leaves
    the world as it is.  So after a run that returned normally, run the
    call again on the same arguments, the document being unchanged: the
    output directory is there, creating it again changes nothing and
    raises nothing, some schedule takes the second call back to the
    caller, and whenever it is back it has returned normally with the same
    files holding the same contents (each page file written again with
    what it held) and the same directories. *)
Theorem rerun_is_idempotent (pdf out : string) (res : Z) (w w1 : world)
    (sched1 : list label) (log1 : list event) :
  extract_tiff_from_pdf pdf out res sched1 w = Some (None, w1, log1) →
  files w1 !! pdf = files w !! pdf →
  (∀ w0, out ∈ dirs w0 → handle (MakeDirs out true) w0 = (inr tt, w0))
  ∧ out ∈ dirs w1
  ∧ (∃ sched2 w2 log2,
        extract_tiff_from_pdf pdf out res sched2 w1 = Some (None, w2, log2))
  ∧ (∀ sched2 r w2 log2,
        extract_tiff_from_pdf pdf out res sched2 w1 = Some (r, w2, log2) →
        r = None ∧ files w2 = files w1 ∧ dirs w2 = dirs w1).
Proof.
  intros [p1 Hrun1]%extract_Some Hsame.
  destruct (start_cases pdf out res w)
    as [(e & wa & loga & Hs) | (raw & P & wa & Hres & Hf & HP & Hm & Hs)].
  { rewrite Hs in Hrun1.
    by apply (run_returned _ _ _ (Some e)) in Hrun1 as [_ ?]. }
  pose proof (run_inv_start _ _ _ _ _ _ _ _ _ Hres Hf HP Hm Hrun1)
    as (_ & Ha1 & Ht1).
  pose proof Ha1 as ((_ & Hall1) & _). simpl in Hall1.
  destruct Ht1 as (Hdirs1 & _ & _ & Hfin1). simpl in Hdirs1, Hfin1.
  assert (out ∈ dirs w1) as Hout.
  { rewrite Hdirs1. by apply os_makedirs_files in Hm as [_ ?]. }
  pose proof (os_makedirs_exists out w1 Hout) as Hm2.
  rewrite Hf in Hsame.
  assert (∀ sched2 s2 r,
            run sched2 (start pdf out res w1) = Some s2 →
            st_disp s2 = Returned r →
            r = None ∧ files (st_world s2) = files w1
            ∧ dirs (st_world s2) = dirs w1) as Hany.
  { intros sched2 s2 r Hrun2 Hd2.
    pose proof (run_inv_start _ _ _ _ _ _ _ _ _ Hres Hsame HP Hm2 Hrun2)
      as (_ & Ha2 & Ht2).
    pose proof Ha2 as (Hdisp2 & _). rewrite Hd2 in Hdisp2. simpl in Hdisp2.
    destruct Hdisp2 as [_ Hr2].
    destruct Ht2 as (Hdirs2 & Hfiles2 & _ & Hfin2).
    assert (r = None) as ->.
    { destruct r as [e|]; [| done].
      destruct Hr2 as (pre & n & _ & Hin & _).
      assert (n ∈ range P) as Hn by (eapply finished_in_range; eauto).
      destruct (Hfin2 n _ Hin) as (_ & He & _).
      destruct (Hfin1 n None (Hall1 n Hn)) as (_ & Hnone & _).
      rewrite Hdirs1, <- Hnone in He. done. }
    split_and!; [done | | done]. apply map_eq. intros f.
    destruct (decide (f ∈ page_path out <$> range P)) as [Hin|Hnot].
    - apply list_elem_of_fmap in Hin as (n & -> & Hn).
      destruct (Hfin2 n None (Hr2 n Hn)) as (_ & _ & H2).
      destruct (Hfin1 n None (Hall1 n Hn)) as (_ & _ & H1).
      destruct (H2 eq_refl) as (img & rest & Hc & ->).
      destruct (H1 eq_refl) as (img' & rest' & Hc' & ->).
      rewrite Hc in Hc'. by injection Hc' as <- <-.
    - apply Hfiles2. intros n Hn ->. apply Hnot, list_elem_of_fmap.
      by exists n. }
  split_and!.
  - intros w0 Hw0. simpl. by apply os_makedirs_exists.
  - done.
  - destruct (can_return raw res out P w1 (start pdf out res w1))
      as (sched2 & [w2 log2 d2 p2] & r & Hrun2 & Hd2).
    { by apply (run_inv_start pdf out res w1 w1 raw P [] _ Hres Hsame HP Hm2). }
    simpl in Hd2. subst d2.
    destruct (Hany _ _ _ Hrun2 eq_refl) as (-> & _).
    exists sched2, w2, log2. apply extract_Some. by exists p2.
  - intros sched2 r w2 log2 [p2 Hrun2]%extract_Some.
    by destruct (Hany _ _ _ Hrun2 eq_refl).
Qed.


(** ** More on the sequential part: what fails before the pool *)

Lemma start_unreadable (pdf out : string) (res : Z) (w : world)
    (raw : list Byte.byte) (e : exn) :
  0 < res → files w !! pdf = Some raw → pdf_num_pages raw = inl e →
  start pdf out res w
  = State w [EIsFile pdf; EOpenRb pdf; ENumPages raw] (Returned (Some e))
      no_pool.
Proof.
  intros Hres Hf HP. unfold start. rewrite exec_prepare, Hf, HP.
  destruct (Z.leb_spec res 0); [lia | done].
Qed.

Lemma os_makedirs_refused (out : string) (w : world) :
  out ∉ dirs w → out = "" ∨ is_Some (files w !! out) →
  os_makedirs out true w
  = (inl (Exn (if bool_decide (out = "") then FileNotFoundError
               else FileExistsError) out), w).
Proof.
  intros Hd Hbad. unfold os_makedirs.
  rewrite (bool_decide_eq_false_2 _ Hd). case_bool_decide; [done |].
  destruct Hbad as [?|Hf]; [done |]. by rewrite bool_decide_eq_true_2.
Qed.

Lemma start_no_directory (pdf out : string) (res : Z) (w w' : world)
    (raw : list Byte.byte) (P : nat) (e : exn) :
  0 < res → files w !! pdf = Some raw → pdf_num_pages raw = inr P →
  os_makedirs out true w = (inl e, w') →
  start pdf out res w
  = State w' [EIsFile pdf; EOpenRb pdf; ENumPages raw; EMakeDirs out true]
      (Returned (Some e)) no_pool.
Proof.
  intros Hres Hf HP Hm. unfold start. rewrite exec_prepare, Hf, HP, Hm.
  destruct (Z.leb_spec res 0); [lia | done].
Qed.

(** X1.  A document whose page count cannot be read: the call raises the
    exception of the reader, whatever the schedule; the file was opened
    once, the output directory is not created and nothing is submitted. *)
Theorem unreadable_document_rejected (pdf out : string) (res : Z)
    (w : world) (raw : list Byte.byte) (e : exn) :
  0 < res → files w !! pdf = Some raw → pdf_num_pages raw = inl e →
  extract_tiff_from_pdf pdf out res [] w
  = Some (Some e, w, [EIsFile pdf; EOpenRb pdf; ENumPages raw])
  ∧ ∀ sched r w' log,
      extract_tiff_from_pdf pdf out res sched w = Some (r, w', log) →
      r = Some e ∧ w' = w
      ∧ log = [EIsFile pdf; EOpenRb pdf; ENumPages raw].
Proof.
  intros Hres Hf HP.
  destruct (extract_prepare_failed pdf out res w w
              [EIsFile pdf; EOpenRb pdf; ENumPages raw] e) as [H1 H2];
    [by apply start_unreadable |].
  split; [done |]. intros sched r w' log H.
  by destruct (H2 _ _ _ _ H) as (_ & -> & -> & ->).
Qed.

(** X2.  A readable document and an output path that is no directory and
    is empty or names a regular file: the call raises what [os.makedirs]
    raises, [FileNotFoundError] for the empty path and [FileExistsError]
    for a file, whatever the schedule; the world is unchanged, the
    document is not read a second time and nothing is submitted. *)
Theorem output_directory_refused (pdf out : string) (res : Z) (w : world)
    (raw : list Byte.byte) (P : nat) :
  0 < res → files w !! pdf = Some raw → pdf_num_pages raw = inr P →
  out ∉ dirs w → out = "" ∨ is_Some (files w !! out) →
  let e := Exn (if bool_decide (out = "") then FileNotFoundError
                else FileExistsError) out in
  let log0 :=
    [EIsFile pdf; EOpenRb pdf; ENumPages raw; EMakeDirs out true] in
  extract_tiff_from_pdf pdf out res [] w = Some (Some e, w, log0)
  ∧ ∀ sched r w' log,
      extract_tiff_from_pdf pdf out res sched w = Some (r, w', log) →
      r = Some e ∧ w' = w ∧ log = log0.
Proof.
  intros Hres Hf HP Hd Hbad e log0.
  destruct (extract_prepare_failed pdf out res w w log0 e) as [H1 H2].
  { eapply start_no_directory; eauto. by apply os_makedirs_refused. }
  split; [done |]. intros sched r w' log H.
  by destruct (H2 _ _ _ _ H) as (_ & -> & -> & ->).
Qed.

(** ** What one move of a worker does *)

Lemma after_render_not_start (raw : list Byte.byte) (res : Z) (out : string)
    (n : Z) :
  after_render raw res out n ≠ _convert_page_to_image raw res out n.
Proof.
  unfold after_render.
  destruct (convert_from_bytes raw res (n + 1) (n + 1) true) as [e|[|img l]];
    [done | done |].
  intros H. apply (f_equal (λ p, match p with
                                 | Do c _ => Some (event_of c)
                                 | _ => None
                                 end)) in H. done.
Qed.

(** The five moves of a worker on the work item of page [n]: call the
    rasterizer, save (refused or not), print, and set the future. *)
Lemma work_step (raw : list Byte.byte) (res : Z) (out : string) (P : nat)
    (w1 : world) (i : nat) (s s' : state) :
  step (Work i) s = Some s' →
  accounted raw res out P s → tasks_ok raw res out P w1 s →
  ∃ n prg,
    running (st_pool s) !! i = Some (n, prg) ∧ n ∈ range P
    ∧ let p := st_pool s in
      let w := st_world s in
      let log := st_log s in
      let upd prg' :=
        Pool (max_workers p) (threads p) (queue p)
          (<[i := (n, prg')]> (running p)) (finished p) in
      (prg = _convert_page_to_image raw res out n
       ∧ s' = State w (log ++ [EConvert raw res (n + 1) (n + 1) true])
                (st_disp s) (upd (after_render raw res out n)))
      ∨ (∃ img rest,
            convert_from_bytes raw res (n + 1) (n + 1) true
            = inr (img :: rest)
            ∧ prg = save_page img res out n
            ∧ ((page_path out n ∈ dirs w
                ∧ s' = State w
                         (log ++ [ESave img (page_path out n) "TIFF" (res, res)])
                         (st_disp s)
                         (upd (Raise (Exn IsADirectoryError
                                        (page_path out n)))))
               ∨ ((page_path out n ∉ dirs w)
                  ∧ s' = State
                           (World (<[page_path out n :=
                                       image_encode img "TIFF" (res, res)]>
                                     (files w)) (dirs w) (stdout w))
                           (log ++ [ESave img (page_path out n) "TIFF"
                                      (res, res)])
                           (st_disp s) (upd (report_page out n)))))
      ∨ (prg = report_page out n
         ∧ task_outcome raw res out (dirs w1) n = None
         ∧ s' = State (print (page_message out n) w)
                  (log ++ [EPrint (page_message out n)])
                  (st_disp s) (upd (Ret tt)))
      ∨ (∃ r, ((prg = Ret tt ∧ r = None) ∨ (∃ e, prg = Raise e ∧ r = Some e))
              ∧ r = task_outcome raw res out (dirs w1) n
              ∧ s' = State w log (st_disp s)
                       (Pool (max_workers p) (threads p) (queue p)
                          (delete i (running p)) (finished p ++ [(n, r)]))).
Proof.
  intros H Ha (Hdirs & _ & Hrun & _). destruct s as [w log d p].
  simpl in *. destruct (running p !! i) as [[n prg]|] eqn:Hl; [| done].
  exists n, prg. split; [done |].
  split; [eapply running_in_range; [exact Ha | exact Hl] |].
  destruct (Hrun i n prg Hl)
    as [-> | (Hlog & [(e & -> & Hout)
                     | [(img & rest & Hc & ->)
                       | (img & rest & Hc & Hout & Hfile & [-> | ->])]])].
  - left. split; [done |]. simpl in H. injection H as <-.
    unfold after_render.
    by destruct (convert_from_bytes raw res (n + 1) (n + 1) true)
      as [e|[|img l]].
  - do 3 right. exists (Some e). rewrite <- Hdirs.
    split_and!; [right; by exists e | done |].
    simpl in H. by injection H as <-.
  - right; left. exists img, rest. split_and!; [done | done |].
    simpl in H. unfold write_file in H.
    case_bool_decide; simpl in H; injection H as <-; [left | right]; done.
  - right; right; left. rewrite <- Hdirs. split_and!; [done | done |].
    simpl in H. by injection H as <-.
  - do 3 right. exists None. rewrite <- Hdirs.
    split_and!; [by left | done |]. simpl in H. by injection H as <-.
Qed.

(** The moves that are not a worker's leave the world as it is. *)
Lemma other_step_world (l : label) (s s' : state) :
  (∀ i, l ≠ Work i) → step l s = Some s' → st_world s' = st_world s.
Proof.
  intros Hl H. destruct s as [w log d p].
  destruct l; [| | | by destruct (Hl i)]; by step_inv H.
Qed.



(** ** The files a run leaves behind *)

Lemma files_ok_step (raw : list Byte.byte) (res : Z) (out : string) (P : nat)
    (w1 : world) (l : label) (s s' : state) :
  step l s = Some s' → inv raw res out P w1 s →
  files_ok raw res out P w1 (st_world s) →
  files_ok raw res out P w1 (st_world s').
Proof.
  intros H (_ & Ha & Ht) Hf.
  assert ((∀ i, l ≠ Work i) → files_ok raw res out P w1 (st_world s'))
    as Hother by (intros Hl; by rewrite (other_step_world _ _ _ Hl H)).
  destruct l as [|j| |i]; [by apply Hother .. |]. clear Hother.
  destruct (work_step _ _ _ _ _ _ _ _ H Ha Ht) as (n & prg & Hl & Hn & Hcase).
  destruct Ht as (Hdirs & _).
  destruct Hcase
    as [(_ & ->) | [(img & rest & Hc & _ & [(_ & ->) | (Hnd & ->)])
                   | [(_ & _ & ->) | (r & _ & _ & ->)]]]; try exact Hf.
  simpl. intros m Hm. destruct (decide (m = n)) as [->|Hne].
  - right. exists img, rest. split_and!; [done | |].
    + rewrite task_outcome_eq, Hc, bool_decide_eq_false_2; [done |].
      by rewrite <- Hdirs.
    + simpl. by rewrite lookup_insert_eq.
  - simpl. rewrite lookup_insert_ne; [by apply Hf |].
    intros Heq. apply Hne. apply elem_of_range in Hn, Hm.
    symmetry. eapply page_path_inj, Heq; lia.
Qed.

Lemma files_ok_run (raw : list Byte.byte) (res : Z) (out : string) (P : nat)
    (w1 : world) (sched : list label) (s s' : state) :
  run sched s = Some s' → inv raw res out P w1 s →
  files_ok raw res out P w1 (st_world s) →
  files_ok raw res out P w1 (st_world s').
Proof.
  revert s. induction sched as [|l sched IH]; intros s; simpl.
  - by intros [= <-].
  - destruct (step l s) as [s1|] eqn:Hs; [| done]. intros H Hi Hf.
    eapply IH; [exact H | by eapply inv_step | by eapply files_ok_step].
Qed.

(** What every run that is back in the caller has left, whether it raises
    or not. *)
Lemma returned_world (pdf out : string) (res : Z) (w w1 : world)
    (raw : list Byte.byte) (P : nat) (sched : list label) (s : state)
    (r : option exn) :
  0 < res → files w !! pdf = Some raw → pdf_num_pages raw = inr P →
  os_makedirs out true w = (inr tt, w1) →
  run sched (start pdf out res w) = Some s → st_disp s = Returned r →
  dirs (st_world s) = {[out]} ∪ dirs w
  ∧ (∀ f, f ∉ page_path out <$> range P →
          files (st_world s) !! f = files w !! f)
  ∧ (∀ n, n ∈ range P →
          (n, task_outcome raw res out (dirs w1) n) ∈ finished (st_pool s))
  ∧ (∀ n, n ∈ range P →
       match task_outcome raw res out (dirs w1) n with
       | None =>
           ∃ img rest,
             convert_from_bytes raw res (n + 1) (n + 1) true
             = inr (img :: rest)
             ∧ files (st_world s) !! page_path out n
               = Some (image_encode img "TIFF" (res, res))
       | Some _ => files (st_world s) !! page_path out n
                   = files w !! page_path out n
       end).
Proof.
  intros Hres Hf HP Hm Hrun Hd.
  pose proof (run_inv_start _ _ _ _ _ _ _ _ _ Hres Hf HP Hm Hrun) as Hinv.
  assert (files_ok raw res out P w1 (st_world s)) as Hfo.
  { rewrite (start_pool _ _ _ _ _ _ _ Hres Hf HP Hm) in Hrun.
    eapply files_ok_run; [exact Hrun | by apply inv_pool_start |].
    intros n _. by left. }
  pose proof Hinv as (_ & Ha & (Hdirs & Hfiles & _ & Hfin)).
  pose proof (os_makedirs_ok _ _ _ Hm) as Hw1.
  assert (∀ n, n ∈ range P →
            (n, task_outcome raw res out (dirs w1) n) ∈ finished (st_pool s))
    as Hall.
  { intros n Hn.
    destruct (returned_all_finished _ _ _ _ _ _ _ _ Hinv Hd Hn) as [r' Hin].
    by destruct (Hfin n r' Hin) as (_ & <- & _). }
  split_and!.
  - rewrite Hdirs, Hw1. done.
  - intros f Hnot. rewrite Hfiles; [by rewrite Hw1 |].
    intros n Hn ->. apply Hnot, list_elem_of_fmap. by exists n.
  - done.
  - intros n Hn. pose proof (Hall n Hn) as Hin.
    destruct (task_outcome raw res out (dirs w1) n) as [e|] eqn:Ho.
    + destruct (Hfo n Hn) as [Hsame | (img & rest & _ & Hnone & _)].
      * rewrite Hsame, Hw1. done.
      * congruence.
    + destruct (Hfin n None Hin) as (_ & _ & Hw). by apply Hw.
Qed.

(** What the caller gets is told by what the converter does alone. *)
Lemma returned_outcome (raw : list Byte.byte) (res : Z) (out : string)
    (P : nat) (w1 : world) (s : state) (r : option exn) :
  inv raw res out P w1 s → st_disp s = Returned r →
  (r = None ↔ ∀ n, n ∈ range P →
                   task_outcome raw res out (dirs w1) n = None)
  ∧ (∀ e, r = Some e →
          ∃ n, n ∈ range P ∧ task_outcome raw res out (dirs w1) n = Some e).
Proof.
  intros Hinv Hd. pose proof Hinv as (_ & Ha & (_ & _ & _ & Hfin)).
  pose proof Ha as (Hdisp & _). rewrite Hd in Hdisp. simpl in Hdisp.
  destruct Hdisp as [_ Hr].
  assert (∀ e, r = Some e →
               ∃ n, n ∈ range P
                    ∧ task_outcome raw res out (dirs w1) n = Some e) as Hsome.
  { intros e ->. destruct Hr as (pre & n & _ & Hin & _). exists n.
    split; [eapply finished_in_range; eauto |].
    by destruct (Hfin n _ Hin) as (_ & <- & _). }
  split; [| done]. split.
  - intros -> n Hn. by destruct (Hfin n None (Hr n Hn)) as (_ & <- & _).
  - intros Hall. destruct r as [e|]; [| done].
    destruct (Hsome e eq_refl) as (n & Hn & Ho). rewrite Hall in Ho; done.
Qed.


(** X4.  Two runs of the call on the same arguments in the same world,
    under any two schedules, that are both back in the caller: they have
    left the same files with the same contents and the same directories,
    and both have returned normally or both have raised. *)
Theorem files_do_not_depend_on_schedule (pdf out : string) (res : Z)
    (w wa wb : world) (sched1 sched2 : list label) (ra rb : option exn)
    (loga logb : list event) :
  extract_tiff_from_pdf pdf out res sched1 w = Some (ra, wa, loga) →
  extract_tiff_from_pdf pdf out res sched2 w = Some (rb, wb, logb) →
  files wa = files wb ∧ dirs wa = dirs wb ∧ (ra = None ↔ rb = None).
Proof.
  intros [pa Ha]%extract_Some [pb Hb]%extract_Some.
  destruct (start_cases pdf out res w)
    as [(e & w1 & log1 & Hs) | (raw & P & w1 & Hres & Hf & HP & Hm & _)].
  { rewrite Hs in Ha, Hb.
    apply (run_returned _ _ _ (Some e)) in Ha as [_ Ha]; [| done ..].
    apply (run_returned _ _ _ (Some e)) in Hb as [_ Hb]; [| done ..].
    injection Ha as -> -> -> ->. by injection Hb as -> -> -> ->. }
  destruct (returned_world _ _ _ _ _ _ _ _ _ _ Hres Hf HP Hm Ha eq_refl)
    as (Hda & Hoa & Hfa & Hpa).
  destruct (returned_world _ _ _ _ _ _ _ _ _ _ Hres Hf HP Hm Hb eq_refl)
    as (Hdb & Hob & Hfb & Hpb).
  simpl in *. split_and!.
  - apply map_eq. intros f.
    destruct (decide (f ∈ page_path out <$> range P)) as [Hin|Hnot].
    + apply list_elem_of_fmap in Hin as (n & -> & Hn).
      specialize (Hpa n Hn). specialize (Hpb n Hn).
      destruct (task_outcome raw res out (dirs w1) n); [congruence |].
      destruct Hpa as (img & rest & Hc & ->).
      destruct Hpb as (img' & rest' & Hc' & ->).
      rewrite Hc in Hc'. by injection Hc' as <- <-.
    + by rewrite Hoa, Hob.
  - congruence.
  - pose proof (run_inv_start _ _ _ _ _ _ _ _ _ Hres Hf HP Hm Ha) as Hia.
    pose proof (run_inv_start _ _ _ _ _ _ _ _ _ Hres Hf HP Hm Hb) as Hib.
    destruct (returned_outcome _ _ _ _ _ _ _ Hia eq_refl) as [-> _].
    by destruct (returned_outcome _ _ _ _ _ _ _ Hib eq_refl) as [-> _].
Qed.

(** X5.  On a valid document whose output directory can be made, whenever
    the call is back in the caller: it has returned normally exactly when
    the converter ends well alone on every page, and when it raises, the
    exception is the one the converter raises alone on some page. *)
Theorem raises_iff_some_page_fails (pdf out : string) (res : Z)
    (w w1 w' : world) (raw : list Byte.byte) (P : nat)
    (sched : list label) (r : option exn) (log : list event) :
  0 < res → files w !! pdf = Some raw → pdf_num_pages raw = inr P →
  os_makedirs out true w = (inr tt, w1) →
  extract_tiff_from_pdf pdf out res sched w = Some (r, w', log) →
  (r = None ↔ ∀ n, 0 ≤ n < Z.of_nat P →
                   task_outcome raw res out (dirs w1) n = None)
  ∧ (∀ e, r = Some e →
          ∃ n, 0 ≤ n < Z.of_nat P
               ∧ task_outcome raw res out (dirs w1) n = Some e).
Proof.
  intros Hres Hf HP Hm [p Hrun]%extract_Some.
  pose proof (run_inv_start _ _ _ _ _ _ _ _ _ Hres Hf HP Hm Hrun) as Hinv.
  destruct (returned_outcome _ _ _ _ _ _ _ Hinv eq_refl) as [Hnone Hsome].
  split.
  - rewrite Hnone. split; intros H n Hn; apply H; by apply elem_of_range.
  - intros e He. destruct (Hsome e He) as (n & Hn%elem_of_range & Ho). eauto.
Qed.

Lemma future_state_of_elem (n : Z) (fin : list (Z * option exn))
    (r : option exn) :
  NoDup (ids fin) → (n, r) ∈ fin → future_state n fin = Some r.
Proof.
  intros Hnd Hin. destruct (future_state_is_Some n fin) as [r' Hr'].
  { unfold ids. apply list_elem_of_fmap. by exists (n, r). }
  rewrite Hr'. f_equal. apply future_state_elem in Hr'.
  by eapply NoDup_ids_functional.
Qed.

(** X6.  On a valid document whose output directory can be made, for
    every page on which the converter raises alone there is a schedule
    under which the call raises that page's exception: which failure the
    caller sees is up to the schedule. *)
Theorem any_failure_can_be_the_one_raised (pdf out : string) (res : Z)
    (w w1 : world) (raw : list Byte.byte) (P : nat) (n : Z) (e : exn) :
  0 < res → files w !! pdf = Some raw → pdf_num_pages raw = inr P →
  os_makedirs out true w = (inr tt, w1) →
  0 ≤ n < Z.of_nat P → task_outcome raw res out (dirs w1) n = Some e →
  ∃ sched w' log,
    extract_tiff_from_pdf pdf out res sched w = Some (Some e, w', log).
Proof.
  intros Hres Hf HP Hm Hn%elem_of_range Ho.
  pose proof (start_pool _ _ _ _ _ _ _ Hres Hf HP Hm) as Hs.
  destruct (submit_all (range P) w1 (prepare_log pdf out raw) raw res out []
              (ThreadPoolExecutor 20)) as (s1 & log1 & futs & p1 & H1).
  assert (inv raw res out P w1 (State w1 log1 (AsCompleted futs) p1)) as Hi1.
  { eapply inv_run; [exact H1 | by apply inv_pool_start]. }
  destruct p1 as [mw th q rs fin].
  destruct (drain_pool q w1 log1 (AsCompleted futs) mw th rs fin)
    as (s2 & w2 & log2 & fin2 & H2).
  { by destruct Hi1 as (_ & (_ & _ & _ & _ & Hth & _) & _). }
  pose proof (inv_run _ _ _ _ _ _ _ _ H2 Hi1) as Hi2.
  pose proof Hi2 as (_ & Ha2 & (_ & _ & _ & Hfin2)).
  pose proof Ha2 as ((Hsub & Hperm & Hobs) & Hacc & _). simpl in *.
  assert (n ∈ ids fin2) as Hin.
  { rewrite Hsub in Hacc. by rewrite <- Hacc. }
  apply list_elem_of_fmap in Hin as ([m r] & -> & Hin). simpl in *.
  destruct (Hfin2 m r Hin) as (_ & -> & _). rewrite Ho in Hin.
  assert (m ∈ futs) as Hpend.
  { rewrite <- Hperm in Hn. apply elem_of_app in Hn as [Hn|Hn]; [| done].
    pose proof (finished_functional _ _ _ _ _ _ _ _ Ha2 Hin (Hobs m Hn)).
    done. }
  apply list_elem_of_lookup in Hpend as [i Hi].
  exists (s1 ++ s2 ++ [Yield i; Disp]), w2, (log2 ++ [EResult m]).
  apply extract_Some.
  exists (Pool mw th [] [] fin2). rewrite Hs. unfold pool_start.
  rewrite run_app, H1. simpl. rewrite run_app, H2. simpl. rewrite Hi.
  rewrite (future_state_of_elem m fin2 (Some e)); [done | | done].
  apply accounted_NoDup in Ha2. by apply NoDup_app in Ha2 as (_ & _ & Ha2).
Qed.

(** ** The results the dispatcher asks for *)

Lemma observed_ok_step (raw : list Byte.byte) (res : Z) (out : string)
    (P : nat) (l : label) (s s' : state) :
  step l s = Some s' → accounted raw res out P s →
  observed_ok P s → observed_ok P s'.
Proof.
  destruct s as [w log d p]. unfold observed_ok, accounted.
  intros H (Hd & _) Ho.
  destruct l; step_inv H; simpl in *; subst; simpl in *;
    rewrite ?observed_app, ?observed_event_of, ?app_nil_r; try done.
  - (* the collection loop ends *)
    destruct Hd as (_ & Hp & _). rewrite app_nil_r in Hp.
    split_and!; [| | done].
    + rewrite Hp. apply NoDup_range.
    + intros n Hn. by rewrite <- Hp.
  - (* a failed future is observed *)
    destruct Hd as (_ & Hp & _). simpl.
    assert (NoDup (observed log ++ pending)) as Hnd
      by (rewrite Hp; apply NoDup_range).
    assert (z ∈ pending) as Hz by (by eapply list_elem_of_lookup_2).
    apply NoDup_app in Hnd as (Hnd & Hdisj & _).
    split_and!; [| | done].
    + apply NoDup_app. split_and!; [done | | apply NoDup_singleton].
      intros x Hx Hx'%list_elem_of_singleton. subst. by apply (Hdisj z).
    + intros n [Hn|Hn%list_elem_of_singleton]%elem_of_app; subst;
        rewrite <- Hp, elem_of_app; auto.
Qed.

Lemma observed_ok_run (raw : list Byte.byte) (res : Z) (out : string)
    (P : nat) (w1 : world) (sched : list label) (s s' : state) :
  run sched s = Some s' → inv raw res out P w1 s →
  observed_ok P s → observed_ok P s'.
Proof.
  revert s. induction sched as [|l sched IH]; intros s; simpl.
  - by intros [= <-].
  - destruct (step l s) as [s1|] eqn:Hs; [| done]. intros H Hi Ho.
    eapply IH; [exact H | by eapply inv_step |].
    destruct Hi as (_ & Ha & _). by eapply observed_ok_step.
Qed.

(** X7.  On a valid document whose output directory can be made, at every
    point of every schedule: no future has been asked twice for its
    result; a future that has been asked is one of the [P] pages and was
    done when asked; no result is asked before the last page is
    submitted; and when the call has returned normally every page has
    been asked once. *)
Theorem each_result_asked_once (pdf out : string) (res : Z)
    (w w1 : world) (raw : list Byte.byte) (P : nat) (sched : list label)
    (s : state) :
  0 < res → files w !! pdf = Some raw → pdf_num_pages raw = inr P →
  os_makedirs out true w = (inr tt, w1) →
  run sched (start pdf out res w) = Some s →
  NoDup (observed (st_log s))
  ∧ (∀ n, n ∈ observed (st_log s) →
          0 ≤ n < Z.of_nat P ∧ n ∈ ids (finished (st_pool s)))
  ∧ (observed (st_log s) ≠ [] → submitted (st_log s) = range P)
  ∧ (st_disp s = Returned None → observed (st_log s) ≡ₚ range P).
Proof.
  intros Hres Hf HP Hm Hrun.
  pose proof (run_inv_start _ _ _ _ _ _ _ _ _ Hres Hf HP Hm Hrun) as Hinv.
  assert (observed_ok P s) as Ho.
  { rewrite (start_pool _ _ _ _ _ _ _ Hres Hf HP Hm) in Hrun.
    eapply observed_ok_run; [exact Hrun | by apply inv_pool_start | done]. }
  pose proof Hinv as (_ & Ha & _). pose proof Ha as (Hd & _).
  assert (∀ n r, (n, r) ∈ finished (st_pool s) →
                 n ∈ ids (finished (st_pool s))) as Hids.
  { intros n r Hin. unfold ids. apply list_elem_of_fmap. by exists (n, r). }
  unfold observed_ok in Ho.
  destruct (st_disp s) as [raw' res' out' todo futs|pending|r|r] eqn:Hdisp;
    simpl in Hd.
  - destruct Hd as (_ & _ & _ & _ & _ & ->).
    split_and!; [apply NoDup_nil_2 | by intros ? ?%elem_of_nil | done | done].
  - destruct Hd as (Hs & Hp & Hobs).
    assert (NoDup (observed (st_log s) ++ pending)) as Hnd
      by (rewrite Hp; apply NoDup_range).
    apply NoDup_app in Hnd as (Hnd & _ & _).
    split_and!; [done | | done | done].
    intros n Hn. split; [| by eapply Hids, Hobs].
    apply elem_of_range. rewrite <- Hp. apply elem_of_app. by left.
  - destruct Hd as (Hs & Hr). destruct Ho as (Hnd & Hin & _).
    split_and!; [done | | done | done].
    intros n Hn. split; [by apply elem_of_range, Hin |].
    destruct r as [e|]; [| by eapply Hids, Hr, Hin].
    destruct Hr as (pre & m & Heq & Hm' & Hpre). rewrite Heq in Hn.
    apply elem_of_app in Hn as [Hn|Hn%list_elem_of_singleton]; subst;
      eapply Hids; eauto.
  - destruct Hd as (Hs & Hr). destruct Ho as (Hnd & Hin & Hall).
    split_and!; [done | | done | by intros [= ->]; apply Hall].
    intros n Hn. split; [by apply elem_of_range, Hin |].
    destruct r as [e|]; [| by eapply Hids, Hr, Hin].
    destruct Hr as (pre & m & Heq & Hm' & Hpre). rewrite Heq in Hn.
    apply elem_of_app in Hn as [Hn|Hn%list_elem_of_singleton]; subst;
      eapply Hids; eauto.
Qed.

(** ** The calls of [print] *)







(** ** The calls made for each page *)

Lemma string_of_uint_no_space (d : Decimal.uint) :
  " "%char ∉ list_ascii_of_string (NilEmpty.string_of_uint d).
Proof.
  induction d; simpl; [by intros ?%elem_of_nil | ..];
    (intros [Heq|Hin]%elem_of_cons; [discriminate Heq | done]).
Qed.

Lemma no_space_prefix_inj (a b t u : string) :
  " "%char ∉ list_ascii_of_string a → " "%char ∉ list_ascii_of_string b →
  a +:+ String " " t = b +:+ String " " u → a = b.
Proof.
  revert b. induction a as [|c a IH]; intros [|c' b] Ha Hb; simpl; try done.
  - intros [= <- _]. destruct Hb. apply list_elem_of_here.
  - intros [= -> _]. destruct Ha. apply list_elem_of_here.
  - intros [= -> Heq]. f_equal. apply IH; [| | done].
    + intros Hin. apply Ha. simpl. by apply list_elem_of_further.
    + intros Hin. apply Hb. simpl. by apply list_elem_of_further.
Qed.

Lemma page_message_inj (out : string) (i j : Z) :
  0 ≤ i → 0 ≤ j → page_message out i = page_message out j → i = j.
Proof.
  intros Hi Hj H. unfold page_message in H. apply append_inv_head in H.
  rewrite !str_int_nonneg in H by lia.
  apply no_space_prefix_inj in H; [| apply string_of_uint_no_space ..].
  apply (f_equal decimal_value) in H.
  rewrite !decimal_value_digits_of in H. injection H. lia.
Qed.

Lemma task_log_eq (raw : list Byte.byte) (res : Z) (out : string)
    (ds : gset string) (n : Z) :
  task_log raw res out ds n
  = match convert_from_bytes raw res (n + 1) (n + 1) true with
    | inl _ | inr [] => [EConvert raw res (n + 1) (n + 1) true]
    | inr (img :: _) =>
        if bool_decide (page_path out n ∈ ds)
        then [EConvert raw res (n + 1) (n + 1) true;
              ESave img (page_path out n) "TIFF" (res, res)]
        else [EConvert raw res (n + 1) (n + 1) true;
              ESave img (page_path out n) "TIFF" (res, res);
              EPrint (page_message out n)]
    end.
Proof.
  unfold task_log. rewrite exec_convert_page.
  destruct (convert_from_bytes raw res (n + 1) (n + 1) true) as [e|[|img rest]];
    [done | done |].
  simpl. by case_bool_decide.
Qed.

Lemma exec_log_task_log (raw : list Byte.byte) (res : Z) (out : string)
    (n : Z) (w : world) :
  (exec (_convert_page_to_image raw res out n) w []).2
  = task_log raw res out (dirs w) n.
Proof.
  rewrite task_log_eq, exec_convert_page.
  destruct (convert_from_bytes raw res (n + 1) (n + 1) true) as [e|[|img rest]];
    [done | done |].
  by case_bool_decide.
Qed.

Lemma page_events_snoc (out : string) (n : Z) (log : list event) (e : event) :
  page_events out n (log ++ [e])
  = page_events out n log ++ (if concerns out n e then [e] else []).
Proof.
  unfold page_events. rewrite filter_app. f_equal.
  destruct (concerns out n e) eqn:E.
  - rewrite filter_cons_True; [reflexivity | by rewrite E].
  - rewrite filter_cons_False; [reflexivity | rewrite E; exact id].
Qed.

Lemma page_events_other (out : string) (n : Z) (log : list event) (e : event) :
  concerns out n e = false → page_events out n (log ++ [e]) = page_events out n log.
Proof. intros H. by rewrite page_events_snoc, H, app_nil_r. Qed.

(** The calls of page [n] do not concern another page. *)
Lemma concerns_convert (raw : list Byte.byte) (res : Z) (out : string)
    (n m : Z) :
  concerns out m (EConvert raw res (n + 1) (n + 1) true) = bool_decide (n = m).
Proof. simpl. apply bool_decide_ext. lia. Qed.

Lemma concerns_save (out : string) (n m : Z) (img : image) (fmt : string)
    (dpi : Z * Z) :
  0 ≤ n → 0 ≤ m →
  concerns out m (ESave img (page_path out n) fmt dpi) = bool_decide (n = m).
Proof.
  intros Hn Hm. simpl. apply bool_decide_ext. split; [| by intros ->].
  by apply page_path_inj.
Qed.

Lemma concerns_print (out : string) (n m : Z) :
  0 ≤ n → 0 ≤ m →
  concerns out m (EPrint (page_message out n)) = bool_decide (n = m).
Proof.
  intros Hn Hm. simpl. apply bool_decide_ext. split; [| by intros ->].
  by apply page_message_inj.
Qed.

(** Two programs that start differently are different. *)
Ltac prog_absurd H :=
  exfalso;
  apply (f_equal (λ p : prog unit,
                    match p with
                    | Do c _ => Some (Some (event_of c))
                    | Ret _ => Some None
                    | Raise _ => None
                    end)) in H;
  unfold save_page, report_page, _convert_page_to_image in H;
  simpl in H; discriminate H.

Lemma traced_quiet (raw : list Byte.byte) (res : Z) (out : string) (P : nat)
    (w1 w w' : world) (log log' : list event) (d d' : dispatcher)
    (p p' : pool) :
  (∀ m, page_events out m log' = page_events out m log) →
  running p' = running p → finished p' = finished p →
  traced raw res out P w1 (State w log d p) →
  traced raw res out P w1 (State w' log' d' p').
Proof.
  intros Hl Hr Hf (T1 & T2 & T3). unfold traced. simpl in *.
  rewrite Hr, Hf. split_and!.
  - intros n ? ? ?. rewrite Hl. auto.
  - intros i n prg Hi. rewrite !Hl. by eapply T2.
  - intros n r Hn. rewrite Hl. eauto.
Qed.

Lemma traced_update (raw : list Byte.byte) (res : Z) (out : string) (P : nat)
    (w1 w w' : world) (log : list event) (ev : event) (d : dispatcher)
    (p : pool) (i : nat) (n : Z) (prg prg' : prog unit) :
  accounted raw res out P (State w log d p) →
  traced raw res out P w1 (State w log d p) →
  running p !! i = Some (n, prg) →
  (∀ m, m ∈ range P → m ≠ n → concerns out m ev = false) →
  ((prg' = _convert_page_to_image raw res out n
    ∧ page_events out n (log ++ [ev]) = [])
   ∨ (∃ img, prg' = save_page img res out n
             ∧ page_events out n (log ++ [ev])
               = take 1 (task_log raw res out (dirs w1) n))
   ∨ (prg' = report_page out n
      ∧ page_events out n (log ++ [ev])
        = take 2 (task_log raw res out (dirs w1) n))
   ∨ ((prg' = Ret tt ∨ ∃ e, prg' = Raise e)
      ∧ page_events out n (log ++ [ev])
        = task_log raw res out (dirs w1) n)) →
  traced raw res out P w1
    (State w' (log ++ [ev]) d
       (Pool (max_workers p) (threads p) (queue p)
          (<[i := (n, prg')]> (running p)) (finished p))).
Proof.
  intros Ha (T1 & T2 & T3) Hl Hev Hnew.
  assert (i < length (running p))%nat as Hi by (eapply lookup_lt_Some; eauto).
  assert (n ∈ ids (running p)) as Hnr.
  { unfold ids. apply list_elem_of_fmap. exists (n, prg).
    split; [done | by eapply list_elem_of_lookup_2]. }
  unfold traced. simpl in *. split_and!.
  - intros m Hm Hr Hf. rewrite (ids_insert _ _ _ _ _ Hl) in Hr.
    rewrite page_events_other; [by apply T1 |]. apply Hev; [done |].
    by intros ->.
  - intros j m prg0 Hj. destruct (decide (i = j)) as [<-|Hne].
    + rewrite list_lookup_insert_eq in Hj by done. by injection Hj as <- <-.
    + rewrite list_lookup_insert_ne in Hj by done.
      rewrite page_events_other; [by eapply T2 |]. apply Hev.
      * eapply running_in_range; [exact Ha | exact Hj].
      * intros ->.
        by eapply (running_distinct _ _ _ _ _ i j n n); eauto.
  - intros m r Hin. rewrite page_events_other; [by eapply T3 |]. apply Hev.
    + eapply finished_in_range; [exact Ha | exact Hin].
    + intros ->.
      by eapply (running_not_finished _ _ _ _ _ i n n); eauto.
Qed.

Lemma traced_finish (raw : list Byte.byte) (res : Z) (out : string) (P : nat)
    (w1 w : world) (log : list event) (d : dispatcher)
    (p : pool) (i : nat) (n : Z) (prg : prog unit) (r : option exn) :
  traced raw res out P w1 (State w log d p) →
  running p !! i = Some (n, prg) →
  prg = Ret tt ∨ (∃ e, prg = Raise e) →
  traced raw res out P w1
    (State w log d
       (Pool (max_workers p) (threads p) (queue p)
          (delete i (running p)) (finished p ++ [(n, r)]))).
Proof.
  intros (T1 & T2 & T3) Hl Hend. unfold traced. simpl in *. split_and!.
  - intros m Hm Hr Hf. apply T1; [done | |].
    + rewrite (ids_delete _ _ _ _ Hl). rewrite ids_app in Hf. simpl in Hf.
      intros [->|?]%elem_of_cons; [| done].
      apply Hf, elem_of_app. right. apply list_elem_of_here.
    + intros Hin. apply Hf. rewrite ids_app. apply elem_of_app. by left.
  - intros j m prg0 Hj. rewrite list_lookup_delete in Hj.
    case_decide; eauto.
  - intros m r0 [Hin|Hin%list_elem_of_singleton]%elem_of_app; [by eauto |].
    injection Hin as -> ->.
    destruct (T2 i n prg Hl)
      as [(Hp & _) | [(img & Hp & _) | [(Hp & _) | (_ & Hpe)]]];
      [| | | done].
    + destruct Hend as [->|(e & ->)]; prog_absurd Hp.
    + destruct Hend as [->|(e & ->)]; prog_absurd Hp.
    + destruct Hend as [->|(e & ->)]; prog_absurd Hp.
Qed.

Lemma traced_step (raw : list Byte.byte) (res : Z) (out : string) (P : nat)
    (w1 : world) (l : label) (s s' : state) :
  step l s = Some s' → inv raw res out P w1 s →
  traced raw res out P w1 s → traced raw res out P w1 s'.
Proof.
  intros H (_ & Ha & Ht) Htr. destruct l as [|j| |i].
  - destruct s as [w log d p].
    step_inv H; (eapply traced_quiet; [| | | exact Htr]); try done.
    intros m. by apply page_events_other.
  - destruct s as [w log d p].
    step_inv H; (eapply traced_quiet; [| | | exact Htr]); try done;
      intros m; by apply page_events_other.
  - pose proof (accounted_NoDup _ _ _ _ _ Ha) as Hnd.
    pose proof (λ n, accounted_in_range _ _ _ _ _ n Ha) as Hrange.
    destruct Ha as (_ & _ & Hq & _). destruct Htr as (T1 & T2 & T3).
    destruct s as [w log d p]. step_inv H. unfold traced. simpl in *.
    match goal with Hqe : queue p = _ |- _ => rewrite Hqe in * end.
    destruct p0 as [n0 prg0].
    assert (prg0 = _convert_page_to_image raw res out n0) as ->
      by (apply Hq, list_elem_of_here).
    simpl in Hnd. apply NoDup_cons in Hnd as [Hn0 _].
    split_and!; [| | done].
    + intros m Hm Hr Hf. apply T1; [done | | done].
      rewrite ids_app in Hr. intros ?. apply Hr, elem_of_app. by left.
    + intros i m prg [Hl|[_ Hl]]%lookup_app_Some; [by eauto |].
      apply list_lookup_singleton_Some in Hl as [_ [= <- <-]].
      left. split; [done |]. apply T1.
      * apply (Hrange n0). apply list_elem_of_here.
      * intros ?. apply Hn0. rewrite !elem_of_app. by right; left.
      * intros ?. apply Hn0. rewrite !elem_of_app. by right; right.
  - destruct (work_step _ _ _ _ _ _ _ _ H Ha Ht) as (n & prg & Hl & Hn & Hcase).
    pose proof Htr as (_ & T2 & _).
    specialize (T2 i n prg Hl). destruct Ht as (Hdirs & _).
    destruct s as [w log d p]. simpl in *.
    assert (∀ m, m ∈ range P → m ≠ n → bool_decide (n = m) = false) as Hoth.
    { intros m _ Hne. by apply bool_decide_eq_false_2. }
    apply elem_of_range in Hn as Hn0.
    destruct Hcase
      as [(-> & ->) | [(img & rest & Hc & -> & [(Hd & ->) | (Hnd & ->)])
                     | [(-> & Hnone & ->) | (r & Hprg & _ & ->)]]].
    + (* the rasterizer is called *)
      eapply traced_update; [exact Ha | exact Htr | exact Hl | |].
      { intros m Hm Hne. rewrite concerns_convert. auto. }
      rewrite page_events_snoc, concerns_convert, bool_decide_eq_true_2 by done.
      destruct T2 as [(_ & ->) | [(? & Hp & _) | [(Hp & _) | ([Hp|(? & Hp)] & _)]]];
        [| prog_absurd Hp ..].
      simpl. rewrite task_log_eq. unfold after_render.
      destruct (convert_from_bytes raw res (n + 1) (n + 1) true)
        as [e|[|img l]]; [do 3 right; eauto .. |].
      right; left. exists img. split; [done |]. by case_bool_decide.
    + (* the save is refused *)
      eapply traced_update; [exact Ha | exact Htr | exact Hl | |].
      { intros m Hm%elem_of_range Hne. rewrite concerns_save by lia.
        by apply bool_decide_eq_false_2. }
      rewrite page_events_snoc, concerns_save, bool_decide_eq_true_2
        by (done || lia).
      destruct T2 as [(Hp & _) | [(? & _ & ->) | [(Hp & _) | ([Hp|(? & Hp)] & _)]]];
        [prog_absurd Hp | | prog_absurd Hp ..].
      do 3 right. split; [eauto |].
      rewrite task_log_eq, Hc, bool_decide_eq_true_2 by (by rewrite <- Hdirs).
      done.
    + (* the page is saved *)
      eapply traced_update; [exact Ha | exact Htr | exact Hl | |].
      { intros m Hm%elem_of_range Hne. rewrite concerns_save by lia.
        by apply bool_decide_eq_false_2. }
      rewrite page_events_snoc, concerns_save, bool_decide_eq_true_2
        by (done || lia).
      destruct T2 as [(Hp & _) | [(? & _ & ->) | [(Hp & _) | ([Hp|(? & Hp)] & _)]]];
        [prog_absurd Hp | | prog_absurd Hp ..].
      right; right; left. split; [done |].
      rewrite task_log_eq, Hc, bool_decide_eq_false_2 by (by rewrite <- Hdirs).
      done.
    + (* the line is printed *)
      eapply traced_update; [exact Ha | exact Htr | exact Hl | |].
      { intros m Hm%elem_of_range Hne. rewrite concerns_print by lia.
        by apply bool_decide_eq_false_2. }
      rewrite page_events_snoc, concerns_print, bool_decide_eq_true_2
        by (done || lia).
      destruct T2 as [(Hp & _) | [(? & Hp & _) | [(_ & ->) | ([Hp|(? & Hp)] & _)]]];
        [prog_absurd Hp | prog_absurd Hp | | prog_absurd Hp ..].
      do 3 right. split; [by left |].
      rewrite task_outcome_eq in Hnone. rewrite task_log_eq.
      destruct (convert_from_bytes raw res (n + 1) (n + 1) true)
        as [e|[|img l]]; [done | done |].
      by case_bool_decide.
    + (* the future is set *)
      eapply traced_finish; [exact Htr | exact Hl |].
      destruct Hprg as [[-> _]|(e & -> & _)]; eauto.
Qed.

Lemma traced_run (raw : list Byte.byte) (res : Z) (out : string)
    (P : nat) (w1 : world) (sched : list label) (s s' : state) :
  run sched s = Some s' → inv raw res out P w1 s →
  traced raw res out P w1 s → traced raw res out P w1 s'.
Proof.
  revert s. induction sched as [|l sched IH]; intros s; simpl.
  - by intros [= <-].
  - destruct (step l s) as [s1|] eqn:Hs; [| done]. intros H Hi Hp.
    eapply IH; [exact H | by eapply inv_step | by eapply traced_step].
Qed.

Lemma traced_pool_start (raw : list Byte.byte) (res : Z) (out : string)
    (P : nat) (w1 : world) (pdf : string) :
  traced raw res out P w1
    (pool_start raw res out P w1 (prepare_log pdf out raw)).
Proof.
  unfold traced, pool_start. simpl. split_and!; [done | |].
  - by intros i n prg ?.
  - by intros n r ?%elem_of_nil.
Qed.

Lemma renders_task_log (raw : list Byte.byte) (res : Z) (out : string)
    (ds : gset string) (n : Z) :
  length (filter (λ e, is_render n e) (task_log raw res out ds n)) = 1%nat.
Proof.
  rewrite task_log_eq.
  assert (is_render n (EConvert raw res (n + 1) (n + 1) true)) as Hr
    by (simpl; by rewrite bool_decide_eq_true_2).
  destruct (convert_from_bytes raw res (n + 1) (n + 1) true) as [e|[|img l]];
    [| | case_bool_decide];
    rewrite filter_cons_True by exact Hr;
    rewrite ?filter_cons_False by exact id; done.
Qed.

(** X9.  On a valid document whose output directory can be made, whenever
    the call is back in the caller, raising or not: for every page, the
    calls made for it stand in the log in the order and number in which
    the converter makes them when run alone.  So every page is rendered
    exactly once, whatever has failed elsewhere, saved at most once and
    announced at most once, and the interleaving does not reorder the
    calls of one page. *)
Theorem each_page_converted_once (pdf out : string) (res : Z)
    (w w1 w' : world) (raw : list Byte.byte) (P : nat)
    (sched : list label) (r : option exn) (log : list event) (n : Z) :
  0 < res → files w !! pdf = Some raw → pdf_num_pages raw = inr P →
  os_makedirs out true w = (inr tt, w1) →
  extract_tiff_from_pdf pdf out res sched w = Some (r, w', log) →
  0 ≤ n < Z.of_nat P →
  page_events out n log
  = (exec (_convert_page_to_image raw res out n) w1 []).2
  ∧ length (filter (λ e, is_render n e) log) = 1%nat.
Proof.
  intros Hres Hf HP Hm [p Hrun]%extract_Some Hn%elem_of_range.
  pose proof (run_inv_start _ _ _ _ _ _ _ _ _ Hres Hf HP Hm Hrun) as Hinv.
  assert (traced raw res out P w1 (State w' log (Returned r) p))
    as (_ & _ & T3).
  { rewrite (start_pool _ _ _ _ _ _ _ Hres Hf HP Hm) in Hrun.
    eapply traced_run; [exact Hrun | by apply inv_pool_start |].
    apply traced_pool_start. }
  destruct (returned_all_finished _ _ _ _ _ _ _ _ Hinv eq_refl Hn) as [r' Hin].
  rewrite exec_log_task_log. simpl in T3, Hin. specialize (T3 n r' Hin).
  split; [done |].
  assert (∀ l : list event,
            filter (λ e, is_render n e) l
            = filter (λ e, is_render n e) (page_events out n l)) as Hsub.
  { intros l. unfold page_events. rewrite list_filter_filter.
    apply list_filter_iff. intros [ ]; simpl; tauto. }
  rewrite Hsub, T3. apply renders_task_log.
Qed.

(** ** The entry point *)

(** X10.  [main] on arguments that fail validation: when the resolution
    is not positive, or the path names no file, the process exits with
    status 1 after one line on the error stream, [Error processing PDF: ]
    followed by the message of the [ValueError]; the resolution is looked
    at first; the world is unchanged and at most the existence check was
    made. *)
Theorem main_rejects_bad_arguments (py_repr : string → string)
    (pdf out : string) (res : Z) (w : world) :
  res ≤ 0 ∨ files w !! pdf = None →
  let msg := if bool_decide (res ≤ 0)
             then "Resolution must be a positive integer"
             else "PDF file not found: " +:+ pdf in
  let log0 := if bool_decide (res ≤ 0) then [] else [EIsFile pdf] in
  main py_repr pdf out res [] w
  = Some (1, ["Error processing PDF: " +:+ msg], w, log0)
  ∧ ∀ sched code err w' log,
      main py_repr pdf out res sched w = Some (code, err, w', log) →
      code = 1 ∧ err = ["Error processing PDF: " +:+ msg]
      ∧ w' = w ∧ log = log0.
Proof.
  intros Hbad msg log0.
  assert (start pdf out res w
          = State w log0 (Returned (Some (Exn ValueError msg))) no_pool) as Hs.
  { subst msg log0. case_bool_decide.
    - by apply start_invalid_resolution.
    - destruct Hbad; [lia |]. apply start_missing_file; [lia | done]. }
  destruct (extract_prepare_failed _ _ _ _ _ _ _ Hs) as [H1 H2].
  unfold main. split; [by rewrite H1 |].
  intros sched code err w' log.
  destruct (extract_tiff_from_pdf pdf out res sched w)
    as [[[[e|] w2] log2]|] eqn:He; [| | done].
  - destruct (H2 _ _ _ _ He) as (_ & [= ->] & -> & ->). by intros [= <- <- <- <-].
  - by destruct (H2 _ _ _ _ He) as (_ & ? & _).
Qed.

(** X11.  [main] on a valid document whose output directory can be made:
    some schedule takes it to the exit, and whenever the process has
    exited, either the status is 0, nothing was written to the error
    stream and the converter ends well alone on every page, or the status
    is 1 and the error stream holds the one line [Error processing PDF: ]
    followed by the text of the exception the converter raises alone on
    some page. *)
Theorem main_exit_status (py_repr : string → string) (pdf out : string)
    (res : Z) (w w1 : world) (raw : list Byte.byte) (P : nat) :
  0 < res → files w !! pdf = Some raw → pdf_num_pages raw = inr P →
  os_makedirs out true w = (inr tt, w1) →
  (∃ sched code err w' log,
      main py_repr pdf out res sched w = Some (code, err, w', log))
  ∧ ∀ sched code err w' log,
      main py_repr pdf out res sched w = Some (code, err, w', log) →
      (code = 0 ∧ err = []
       ∧ ∀ n, 0 ≤ n < Z.of_nat P →
              task_outcome raw res out (dirs w1) n = None)
      ∨ (code = 1
         ∧ ∃ n e, 0 ≤ n < Z.of_nat P
                  ∧ task_outcome raw res out (dirs w1) n = Some e
                  ∧ err = ["Error processing PDF: " +:+ str_exn py_repr e]).
Proof.
  intros Hres Hf HP Hm. split.
  - destruct (can_return raw res out P w1 (start pdf out res w))
      as (sched & [w' log d p] & r & Hrun & Hd).
    { by apply (run_inv_start pdf out res w w1 raw P [] _ Hres Hf HP Hm). }
    simpl in Hd. subst d.
    assert (extract_tiff_from_pdf pdf out res sched w = Some (r, w', log))
      as He by (apply extract_Some; by exists p).
    unfold main. exists sched. rewrite He. destruct r; eauto 10.
  - intros sched code err w' log. unfold main.
    destruct (extract_tiff_from_pdf pdf out res sched w)
      as [[[r w2] log2]|] eqn:He; [| done].
    apply extract_Some in He as [p Hrun].
    pose proof (run_inv_start _ _ _ _ _ _ _ _ _ Hres Hf HP Hm Hrun) as Hinv.
    destruct (returned_outcome _ _ _ _ _ _ _ Hinv eq_refl) as [Hnone Hsome].
    destruct r as [e|]; intros [= <- <- <- <-].
    + right. split; [done |].
      destruct (Hsome e eq_refl) as (n & Hn%elem_of_range & Ho). eauto.
    + left. split_and!; [done | done |]. intros n Hn%elem_of_range.
      by apply Hnone.
Qed.

(** ** The names of the page files *)

(** X13.  Two pages, numbered from 0, get different files in the output
    directory: the name [page_NNNN.tiff] determines the page number, also
    past page 9999 where the number takes more than four digits, and
    joining it to the directory keeps names apart. *)
Theorem distinct_pages_distinct_files (out : string) (i j : Z) :
  0 ≤ i → 0 ≤ j → i ≠ j →
  os_path_join out (page_file_name i) ≠ os_path_join out (page_file_name j).
Proof. intros Hi Hj Hne H. by apply Hne, (page_path_inj out). Qed.

(** ** Every schedule is finite *)

Lemma sum_list_with_ext {A} (f g : A → nat) (l : list A) :
  (∀ x, x ∈ l → f x = g x) → sum_list_with f l = sum_list_with g l.
Proof.
  induction l as [|a l IH]; intros H; simpl; [done |].
  rewrite (H a (list_elem_of_here _ _)), IH; [done |].
  intros x Hx. by apply H, list_elem_of_further.
Qed.

Lemma sum_list_with_delete {A} (f : A → nat) (l : list A) (i : nat) (x : A) :
  l !! i = Some x →
  sum_list_with f l = (f x + sum_list_with f (delete i l))%nat.
Proof. intros H. by rewrite (delete_Permutation l i x H) at 1. Qed.

Lemma sum_list_with_insert {A} (f : A → nat) (l : list A) (i : nat)
    (x y : A) :
  l !! i = Some x → f y = f x →
  sum_list_with f (<[i := y]> l) = sum_list_with f l.
Proof.
  revert i. induction l as [|a l IH]; intros [|i] Hl Hf; simpl in *; try done.
  - injection Hl as ->. by rewrite Hf.
  - by rewrite IH.
Qed.

Lemma task_log_length (raw : list Byte.byte) (res : Z) (out : string)
    (ds : gset string) (n : Z) :
  (1 ≤ length (task_log raw res out ds n) ≤ 3)%nat.
Proof.
  rewrite task_log_eq.
  destruct (convert_from_bytes raw res (n + 1) (n + 1) true) as [e|[|img l]];
    [| | case_bool_decide]; simpl; lia.
Qed.

(** The calls made for a page never outnumber those of its converter. *)
Lemma traced_bounded (raw : list Byte.byte) (res : Z) (out : string)
    (P : nat) (w1 : world) (s : state) (i : nat) (n : Z) (prg : prog unit) :
  traced raw res out P w1 s → running (st_pool s) !! i = Some (n, prg) →
  (length (page_events out n (st_log s))
   ≤ length (task_log raw res out (dirs w1) n))%nat.
Proof.
  intros (_ & T2 & _) Hl.
  destruct (T2 i n prg Hl)
    as [(_ & ->) | [(? & _ & ->) | [(_ & ->) | (_ & ->)]]];
    rewrite ?length_take; first [lia | simpl; lia].
Qed.

(** The sum over the work items being run when the log grows by an event
    that concerns none of them. *)
Lemma running_sum_quiet (raw : list Byte.byte) (res : Z) (out : string)
    (ds : gset string) (log : list event) (ev : event)
    (rs : list (Z * prog unit)) :
  (∀ x, x ∈ rs → concerns out x.1 ev = false) →
  sum_list_with (λ x, item_left raw res out ds (log ++ [ev]) x.1) rs
  = sum_list_with (λ x, item_left raw res out ds log x.1) rs.
Proof.
  intros H. apply sum_list_with_ext. intros x Hx. unfold item_left.
  by rewrite page_events_other by auto.
Qed.

(** A call made for the work item at position [i] takes one off the sum
    over the work items being run. *)
Lemma running_sum_call (raw : list Byte.byte) (res : Z) (out : string)
    (P : nat) (ds : gset string) (s : state) (ev : event) (i : nat) (n : Z)
    (prg prg' : prog unit) :
  accounted raw res out P s →
  running (st_pool s) !! i = Some (n, prg) →
  concerns out n ev = true →
  (∀ m, m ∈ range P → m ≠ n → concerns out m ev = false) →
  (length (page_events out n (st_log s ++ [ev]))
   ≤ length (task_log raw res out ds n))%nat →
  (sum_list_with (λ x, item_left raw res out ds (st_log s ++ [ev]) x.1)
     (<[i := (n, prg')]> (running (st_pool s))) + 1
   = sum_list_with (λ x, item_left raw res out ds (st_log s) x.1)
       (running (st_pool s)))%nat.
Proof.
  intros Ha Hl Hev Hoth Hle.
  rewrite (sum_list_with_insert _ _ _ (n, prg) (n, prg') Hl) by done.
  rewrite !(sum_list_with_delete _ _ _ _ Hl). simpl.
  rewrite running_sum_quiet.
  - unfold item_left. rewrite page_events_snoc, Hev, length_app in *.
    simpl in *. lia.
  - intros [m prg0] Hin. simpl.
    apply list_elem_of_lookup in Hin as [j Hj].
    rewrite list_lookup_delete in Hj. apply Hoth.
    + case_decide; eapply running_in_range; eauto.
    + intros ->. case_decide.
      * eapply (running_distinct _ _ _ _ _ i j n n); eauto. lia.
      * eapply (running_distinct _ _ _ _ _ i (S j) n n); eauto. lia.
Qed.

Lemma moves_left_step (raw : list Byte.byte) (res : Z) (out : string)
    (P : nat) (w1 : world) (l : label) (s s' : state) :
  step l s = Some s' → inv raw res out P w1 s →
  traced raw res out P w1 s →
  (moves_left raw res out (dirs w1) s'
   < moves_left raw res out (dirs w1) s)%nat.
Proof.
  intros H Hinv Htr.
  pose proof (traced_step _ _ _ _ _ _ _ _ H Hinv Htr) as Htr'.
  pose proof Hinv as (_ & Ha & Ht). destruct l as [|j| |i].
  - destruct s as [w log d p]. unfold moves_left.
    step_inv H; simpl in *;
      rewrite ?running_sum_quiet, ?sum_list_with_app, ?length_app by done;
      simpl; try lia.
  - destruct s as [w log d p]. unfold moves_left.
    step_inv H; simpl in *;
      rewrite ?running_sum_quiet by done;
      match goal with Hp : _ !! j = Some _ |- _ =>
        pose proof (lookup_lt_Some _ _ _ Hp) end;
      rewrite ?length_delete by eauto; lia.
  - pose proof (accounted_NoDup _ _ _ _ _ Ha) as Hnd.
    pose proof (λ n, accounted_in_range _ _ _ _ _ n Ha) as Hrange.
    destruct Ha as (_ & _ & Hq & _). destruct Htr as (T1 & _).
    destruct s as [w log d p]. unfold moves_left. step_inv H. simpl in *.
    match goal with Hqe : queue p = _ |- _ => rewrite Hqe in * end.
    destruct p0 as [n0 prg0]. simpl in Hnd.
    apply NoDup_cons in Hnd as [Hn0 _].
    rewrite sum_list_with_app. simpl. unfold item_left at 2.
    rewrite T1; [simpl; lia | | |].
    + apply (Hrange n0). apply list_elem_of_here.
    + intros ?. apply Hn0. rewrite !elem_of_app. by right; left.
    + intros ?. apply Hn0. rewrite !elem_of_app. by right; right.
  - destruct (work_step _ _ _ _ _ _ _ _ H Ha Ht) as (n & prg & Hl & Hn & Hcase).
    apply elem_of_range in Hn as Hn0.
    assert (∀ prg',
              st_pool s' = Pool (max_workers (st_pool s)) (threads (st_pool s))
                             (queue (st_pool s))
                             (<[i := (n, prg')]> (running (st_pool s)))
                             (finished (st_pool s)) →
              (length (page_events out n (st_log s'))
               ≤ length (task_log raw res out (dirs w1) n))%nat) as Hle.
    { intros prg' Hp. eapply (traced_bounded _ _ _ _ _ _ i n prg'); [done |].
      rewrite Hp. simpl. apply list_lookup_insert_eq.
      by eapply lookup_lt_Some. }
    destruct Hcase
      as [(-> & ->) | [(img & rest & Hc & -> & [(Hd & ->) | (Hnd & ->)])
                     | [(-> & Hnone & ->) | (r & Hprg & _ & ->)]]];
      unfold moves_left; simpl in *.
    + specialize (Hle _ eq_refl).
      rewrite <- (running_sum_call raw res out P (dirs w1) s
                   (EConvert raw res (n + 1) (n + 1) true) i n _
                   (after_render raw res out n) Ha Hl); [lia | | | done].
      * rewrite concerns_convert. by apply bool_decide_eq_true_2.
      * intros m _ Hne. rewrite concerns_convert.
        by apply bool_decide_eq_false_2.
    + specialize (Hle _ eq_refl).
      rewrite <- (running_sum_call raw res out P (dirs w1) s
                   (ESave img (page_path out n) "TIFF" (res, res)) i n _
                   (Raise (Exn IsADirectoryError (page_path out n))) Ha Hl);
        [lia | | | done].
      * rewrite concerns_save by lia. by apply bool_decide_eq_true_2.
      * intros m Hm%elem_of_range Hne. rewrite concerns_save by lia.
        by apply bool_decide_eq_false_2.
    + specialize (Hle _ eq_refl).
      rewrite <- (running_sum_call raw res out P (dirs w1) s
                   (ESave img (page_path out n) "TIFF" (res, res)) i n _
                   (report_page out n) Ha Hl); [lia | | | done].
      * rewrite concerns_save by lia. by apply bool_decide_eq_true_2.
      * intros m Hm%elem_of_range Hne. rewrite concerns_save by lia.
        by apply bool_decide_eq_false_2.
    + specialize (Hle _ eq_refl).
      rewrite <- (running_sum_call raw res out P (dirs w1) s
                   (EPrint (page_message out n)) i n _
                   (Ret tt) Ha Hl); [lia | | | done].
      * rewrite concerns_print by lia. by apply bool_decide_eq_true_2.
      * intros m Hm%elem_of_range Hne. rewrite concerns_print by lia.
        by apply bool_decide_eq_false_2.
    + rewrite (sum_list_with_delete _ (running (st_pool s)) i _ Hl).
      simpl. unfold item_left at 2. lia.
Qed.

Lemma moves_left_run (raw : list Byte.byte) (res : Z) (out : string)
    (P : nat) (w1 : world) (sched : list label) (s s' : state) :
  run sched s = Some s' → inv raw res out P w1 s →
  traced raw res out P w1 s →
  (length sched + moves_left raw res out (dirs w1) s'
   ≤ moves_left raw res out (dirs w1) s)%nat.
Proof.
  revert s. induction sched as [|l sched IH]; intros s; simpl.
  - intros [= <-] _ _. lia.
  - destruct (step l s) as [s1|] eqn:Hs; [| done]. intros H Hi Ht.
    pose proof (moves_left_step _ _ _ _ _ _ _ _ Hs Hi Ht).
    assert (length sched + moves_left raw res out (dirs w1) s'
            ≤ moves_left raw res out (dirs w1) s1)%nat; [| lia].
    eapply IH; [exact H | by eapply inv_step | by eapply traced_step].
Qed.

Lemma moves_left_pool_start (raw : list Byte.byte) (res : Z) (out : string)
    (P : nat) (w1 : world) (log1 : list event) :
  (moves_left raw res out (dirs w1) (pool_start raw res out P w1 log1)
   ≤ 7 * P + 3)%nat.
Proof.
  unfold moves_left, pool_start. simpl. rewrite length_range.
  assert (∀ l : list Z,
            sum_list_with
              (λ n, length (task_log raw res out (dirs w1) n) + 3)%nat l
            ≤ 6 * length l)%nat as Hsum.
  { induction l as [|n l IH]; simpl; [lia |].
    pose proof (task_log_length raw res out (dirs w1) n). lia. }
  specialize (Hsum (range P)). rewrite length_range in Hsum. lia.
Qed.

(** X12.  On a valid document whose output directory can be made, no
    interleaving of the caller and the workers goes on for ever: from the
    start of the pool phase, every sequence of moves has at most
    [7 * P + 3] of them for [P] pages (per page: the submission, the start
    by a worker, at most three calls and the end of the work, and the
    collection of the result; then the end of the submission loop, the end
    of the collection and the shutdown), and at any point reached the call
    can still be brought back to its caller within that bound. *)
Theorem every_schedule_is_finite (pdf out : string) (res : Z)
    (w w1 : world) (raw : list Byte.byte) (P : nat)
    (sched : list label) (s : state) :
  0 < res → files w !! pdf = Some raw → pdf_num_pages raw = inr P →
  os_makedirs out true w = (inr tt, w1) →
  run sched (start pdf out res w) = Some s →
  (length sched ≤ 7 * P + 3)%nat
  ∧ ∃ sched' s' r,
      run (sched ++ sched') (start pdf out res w) = Some s'
      ∧ st_disp s' = Returned r
      ∧ (length (sched ++ sched') ≤ 7 * P + 3)%nat.
Proof.
  intros Hres Hf HP Hm Hrun.
  pose proof (run_inv_start _ _ _ _ _ _ _ _ _ Hres Hf HP Hm Hrun) as Hinv.
  assert (∀ sch s1,
            run sch (start pdf out res w) = Some s1 →
            (length sch ≤ 7 * P + 3)%nat) as Hbound.
  { intros sch s1 H1.
    rewrite (start_pool _ _ _ _ _ _ _ Hres Hf HP Hm) in H1.
    pose proof (moves_left_run raw res out P w1 _ _ _ H1
                  (inv_pool_start raw res out P w1 (prepare_log pdf out raw)
                     eq_refl eq_refl)
                  (traced_pool_start _ _ _ _ _ _)) as Hle.
    pose proof (moves_left_pool_start raw res out P w1
                  (prepare_log pdf out raw)). lia. }
  split; [by eapply Hbound |].
  destruct (can_return _ _ _ _ _ _ Hinv) as (sched' & s' & r & H' & Hr).
  exists sched', s', r.
  assert (run (sched ++ sched') (start pdf out res w) = Some s') as Hall.
  { by rewrite run_app, Hrun. }
  split_and!; [done | done | by eapply Hbound].
Qed.
End Model.

(** ** The theorems at work on the sample document *)

Arguments EIsFile {image} p.
Arguments EOpenRb {image} p.
Arguments ENumPages {image} f.
Arguments EMakeDirs {image} p exist_ok.
Arguments EConvert {image} raw dpi first_page last_page grayscale.
Arguments ESave {image} img p fmt dpi.
Arguments EPrint {image} s.
Arguments ESubmit {image} page_number.
Arguments EResult {image} page_number.

Abbreviation demo_extract :=
  (extract_tiff_from_pdf Demo.image Demo.pdf_num_pages
     Demo.convert_from_bytes Demo.image_encode).
Abbreviation demo_start :=
  (start Demo.image Demo.pdf_num_pages Demo.convert_from_bytes
     Demo.image_encode).
Abbreviation demo_run :=
  (run Demo.image Demo.pdf_num_pages Demo.convert_from_bytes
     Demo.image_encode).

Lemma nonpositive_resolution_rejected_witness :
  0 ≤ 0
  ∧ demo_extract "doc.pdf" "out" 0 [] Demo.w0
    = Some (Some (Exn ValueError "Resolution must be a positive integer"),
            Demo.w0, [])
  ∧ ∀ sched r w' log,
      demo_extract "doc.pdf" "out" 0 sched Demo.w0 = Some (r, w', log) →
      r = Some (Exn ValueError "Resolution must be a positive integer")
      ∧ w' = Demo.w0 ∧ log = [].
Proof.
  split; [lia |].
  apply (nonpositive_resolution_rejected Demo.image Demo.pdf_num_pages
           Demo.convert_from_bytes Demo.image_encode). lia.
Defined.

Lemma one_file_per_page_witness :
  ∃ w' log,
    demo_extract "doc.pdf" "out" 300 Demo.sched3' Demo.w0
    = Some (None, w', log)
    ∧ submitted Demo.image log = [0; 1; 2]
    ∧ files w' !! "out/page_0002.tiff"
      = Some (Demo.image_encode (Byte.x42, 300) "TIFF" (300, 300)).
Proof.
  assert (0 ≤ 1 < Z.of_nat 3) as H13 by (simpl; lia).
  eexists _, _. split; [vm_compute; reflexivity |].
  match goal with
  | |- submitted _ ?log = _ ∧ files ?w' !! _ = _ =>
      destruct (one_file_per_page Demo.image Demo.pdf_num_pages
                  Demo.convert_from_bytes Demo.image_encode
                  "doc.pdf" "out" 300 Demo.w0 w' Demo.doc3 3 Demo.sched3' log)
        as (Hs & _ & _ & _ & _ & Hfiles & _);
        [lia | vm_compute; reflexivity | vm_compute; reflexivity
        | vm_compute; reflexivity |]
  end.
  split; [exact Hs |].
  destruct (Hfiles 1 H13) as (img & rest & Hc & Hf).
  vm_compute in Hc. injection Hc as <- <-. exact Hf.
Defined.

Lemma missing_file_rejected_witness :
  0 < 300 ∧ files Demo.w0 !! "nope.pdf" = None
  ∧ demo_extract "nope.pdf" "out" 300 [] Demo.w0
    = Some (Some (Exn ValueError "PDF file not found: nope.pdf"), Demo.w0,
            [EIsFile "nope.pdf"]).
Proof.
  split; [lia |]. split; [vm_compute; reflexivity |].
  apply (missing_file_rejected Demo.image Demo.pdf_num_pages
           Demo.convert_from_bytes Demo.image_encode
           "nope.pdf" "out" 300 Demo.w0); [lia | vm_compute; reflexivity].
Defined.

(** C5 as the specification has it fails: the call on a missing file and
    the call with a resolution that is not positive raise exceptions of
    one and the same class, [ValueError], which is not the class Python
    has for a missing file. *)
Lemma missing_file_error_not_distinct :
  ∃ e_missing e_resolution,
    demo_extract "nope.pdf" "out" 300 [] Demo.w0
    = Some (Some e_missing, Demo.w0, [EIsFile "nope.pdf"])
    ∧ demo_extract "doc.pdf" "out" 0 [] Demo.w0
      = Some (Some e_resolution, Demo.w0, [])
    ∧ exn_type e_missing = exn_type e_resolution
    ∧ exn_type e_missing ≠ FileNotFoundError.
Proof.
  exists (Exn ValueError "PDF file not found: nope.pdf"),
         (Exn ValueError "Resolution must be a positive integer").
  split_and!; [vm_compute; reflexivity | vm_compute; reflexivity | vm_compute; reflexivity | discriminate].
Qed.

Lemma page_file_name_format_witness :
  0 ≤ 41
  ∧ page_file_name 41 = "page_0042.tiff"
  ∧ decimal_value "0042" = Some 42.
Proof.
  split; [lia |].
  destruct (page_file_name_format Demo.image Demo.pdf_num_pages
              Demo.convert_from_bytes Demo.image_encode 41)
    as (Hname & _ & Hval & _); [lia |].
  split; [exact Hname | exact Hval].
Defined.

Lemma first_observed_failure_is_raised_witness :
  ∃ s,
    demo_run Demo.sched_bad (demo_start "bad.pdf" "out" 300 Demo.w0) = Some s
    ∧ st_disp _ s = Returned (Some (Exn LibraryError "Unable to render page"))
    ∧ observed _ (st_log _ s) = [1]
    ∧ (0, None) ∈ finished _ (st_pool _ s)
    ∧ (1, Some (Exn LibraryError "Unable to render page"))
      ∈ finished _ (st_pool _ s).
Proof.
  eexists. split; [vm_compute; reflexivity |].
  match goal with
  | |- st_disp _ ?s = _ ∧ _ =>
      destruct (first_observed_failure_is_raised Demo.image Demo.pdf_num_pages
                  Demo.convert_from_bytes Demo.image_encode
                  "bad.pdf" "out" 300 Demo.w0
                  (World (files Demo.w0) ({["out"]} ∪ dirs Demo.w0)
                     (stdout Demo.w0))
                  Demo.doc_bad 3)
        as [_ Hall];
        [lia | vm_compute; reflexivity | vm_compute; reflexivity | vm_compute; reflexivity |];
      destruct (Hall Demo.sched_bad s
                  (Some (Exn LibraryError "Unable to render page")))
        as (Hout & Hfail & _); [vm_compute; reflexivity | vm_compute; reflexivity |]
  end.
  pose proof (Hout 0 ltac:(lia)) as H0. pose proof (Hout 1 ltac:(lia)) as H1.
  clear Hout Hfail Hall. vm_compute in H0, H1.
  split; [vm_compute; reflexivity |]. split; [vm_compute; reflexivity |].
  split; vm_compute; [exact H0 | exact H1].
Defined.

Lemma returns_after_all_tasks_witness :
  ∃ s,
    demo_run (take 14 Demo.sched_bad) (demo_start "bad.pdf" "out" 300 Demo.w0)
    = Some s
    ∧ st_disp _ s = Shutdown (Some (Exn LibraryError "Unable to render page"))
    ∧ ids (running _ (st_pool _ s)) = [2]
    ∧ ∃ sched' s' r, demo_run sched' s = Some s' ∧ st_disp _ s' = Returned r.
Proof.
  eexists. split; [vm_compute; reflexivity |].
  split; [vm_compute; reflexivity |]. split; [vm_compute; reflexivity |].
  match goal with
  | |- ∃ sched' s' r, run _ _ _ _ _ ?s = _ ∧ _ =>
      destruct (returns_after_all_tasks Demo.image Demo.pdf_num_pages
                  Demo.convert_from_bytes Demo.image_encode
                  "bad.pdf" "out" 300 Demo.w0
                  (World (files Demo.w0) ({["out"]} ∪ dirs Demo.w0)
                     (stdout Demo.w0))
                  Demo.doc_bad 3 (take 14 Demo.sched_bad) s)
        as (_ & _ & Hlive);
        [lia | vm_compute; reflexivity | vm_compute; reflexivity | vm_compute; reflexivity
        | vm_compute; reflexivity |]
  end.
  exact Hlive.
Defined.

Lemma at_most_20_running_witness :
  ∃ s,
    demo_run Demo.sched_full (demo_start "big.pdf" "out" 300 Demo.w0) = Some s
    ∧ length (submitted _ (st_log _ s)) = 25%nat
    ∧ length (running _ (st_pool _ s)) = 20%nat
    ∧ length (queue _ (st_pool _ s)) = 5%nat
    ∧ step Demo.image Demo.pdf_num_pages Demo.convert_from_bytes
        Demo.image_encode Start s = None.
Proof.
  eexists. split; [vm_compute; reflexivity |].
  split; [vm_compute; reflexivity |]. split; [vm_compute; reflexivity |]. split; [vm_compute; reflexivity |].
  match goal with
  | |- step _ _ _ _ _ ?s = None =>
      destruct (at_most_20_running Demo.image Demo.pdf_num_pages
                  Demo.convert_from_bytes Demo.image_encode
                  "big.pdf" "out" 300 Demo.w0 Demo.sched_full s)
        as (_ & _ & _ & Hfull); [vm_compute; reflexivity |]
  end.
  apply Hfull. simpl. lia.
Defined.

Lemma rerun_is_idempotent_witness :
  ∃ w1 log1,
    demo_extract "doc.pdf" "out" 300 Demo.sched3 Demo.w0
    = Some (None, w1, log1)
    ∧ files w1 !! "doc.pdf" = files Demo.w0 !! "doc.pdf"
    ∧ "out" ∈ dirs w1
    ∧ (∃ sched2 w2 log2,
          demo_extract "doc.pdf" "out" 300 sched2 w1 = Some (None, w2, log2))
    ∧ ∀ sched2 r w2 log2,
        demo_extract "doc.pdf" "out" 300 sched2 w1 = Some (r, w2, log2) →
        r = None ∧ files w2 = files w1 ∧ dirs w2 = dirs w1.
Proof.
  eexists _, _.
  assert (∀ (A B : Prop), A → (A → B) → A ∧ B) as Hcut by tauto.
  apply Hcut; [vm_compute; reflexivity |]. intros Hrun1.
  split; [vm_compute; reflexivity |].
  destruct (rerun_is_idempotent Demo.image Demo.pdf_num_pages
              Demo.convert_from_bytes Demo.image_encode
              "doc.pdf" "out" 300 Demo.w0 _ Demo.sched3 _ Hrun1)
    as (_ & Hdir & Hex & Hall); [vm_compute; reflexivity |].
  split; [exact Hdir |]. split; [exact Hex | exact Hall].
Defined.

Lemma convert_page_calls_witness :
  "out" ∈ dirs (World ∅ {["out"]} [])
  ∧ exec Demo.image Demo.pdf_num_pages Demo.convert_from_bytes
      Demo.image_encode
      (_convert_page_to_image Demo.image Demo.doc3 300 "out" 1)
      (World ∅ {["out"]} []) []
    = (inr tt,
       World (<["out/page_0002.tiff" :=
                  Demo.image_encode (Byte.x42, 300) "TIFF" (300, 300)]> ∅)
         {["out"]} ["Saved page 2 as out/page_0002.tiff"],
       [EConvert Demo.doc3 300 2 2 true;
        ESave (Byte.x42, 300) "out/page_0002.tiff" "TIFF" (300, 300);
        EPrint "Saved page 2 as out/page_0002.tiff"]).
Proof.
  assert ("out" ∈ dirs (World ∅ {["out"]} [])) as Hd
    by (simpl; by apply elem_of_singleton).
  split; [exact Hd |].
  destruct (convert_page_calls Demo.image Demo.pdf_num_pages
              Demo.convert_from_bytes Demo.image_encode
              Demo.doc3 300 "out" 1 (World ∅ {["out"]} []) []) as [_ H].
  rewrite (H Hd). vm_compute; reflexivity.
Defined.



(** A few names and paths. *)
Example format_04_1 : format_04 1 = "0001".
Proof. reflexivity. Qed.

Example format_04_12345 : format_04 12345 = "12345".
Proof. reflexivity. Qed.

Example format_04_minus_5 : format_04 (-5) = "-005".
Proof. reflexivity. Qed.

Example page_path_plain :
  os_path_join "out" (page_file_name 0) = "out/page_0001.tiff".
Proof. reflexivity. Qed.

Example page_path_trailing_sep :
  os_path_join "out/" (page_file_name 41) = "out/page_0042.tiff".
Proof. reflexivity. Qed.

Example page_file_name_wide : page_file_name 12344 = "page_12345.tiff".
Proof. reflexivity. Qed.

(** ** The further theorems at work on the sample documents *)

Abbreviation demo_main :=
  (main Demo.image Demo.pdf_num_pages Demo.convert_from_bytes
     Demo.image_encode (λ s, "'" +:+ s +:+ "'")).
Abbreviation demo_task_outcome :=
  (task_outcome Demo.image Demo.pdf_num_pages Demo.convert_from_bytes
     Demo.image_encode).
Abbreviation demo_w1 :=
  (World (files Demo.w0) ({["out"]} ∪ dirs Demo.w0) (stdout Demo.w0)).

Lemma unreadable_document_rejected_witness :
  0 < 300 ∧ files Demo.w0 !! "doc.pdf" = Some Demo.doc3
  ∧ extract_tiff_from_pdf Demo.image
      (λ _, inl (Exn LibraryError "EOF marker not found"))
      Demo.convert_from_bytes Demo.image_encode "doc.pdf" "out" 300 [] Demo.w0
    = Some (Some (Exn LibraryError "EOF marker not found"), Demo.w0,
            [EIsFile "doc.pdf"; EOpenRb "doc.pdf"; ENumPages Demo.doc3]).
Proof.
  split; [lia |]. split; [vm_compute; reflexivity |].
  destruct (unreadable_document_rejected Demo.image
              (λ _, inl (Exn LibraryError "EOF marker not found"))
              Demo.convert_from_bytes Demo.image_encode
              "doc.pdf" "out" 300 Demo.w0 Demo.doc3
              (Exn LibraryError "EOF marker not found")) as [H _];
    [lia | vm_compute; reflexivity | reflexivity |].
  exact H.
Defined.

Lemma output_directory_refused_witness :
  0 < 300 ∧ files Demo.w0 !! "doc.pdf" = Some Demo.doc3
  ∧ ("" ∉ dirs Demo.w0)
  ∧ demo_extract "doc.pdf" "" 300 [] Demo.w0
    = Some (Some (Exn FileNotFoundError ""), Demo.w0,
            [EIsFile "doc.pdf"; EOpenRb "doc.pdf"; ENumPages Demo.doc3;
             EMakeDirs "" true]).
Proof.
  assert ("" ∉ dirs Demo.w0) as Hd by (simpl; apply not_elem_of_empty).
  split; [lia |]. split; [vm_compute; reflexivity |]. split; [exact Hd |].
  destruct (output_directory_refused Demo.image Demo.pdf_num_pages
              Demo.convert_from_bytes Demo.image_encode
              "doc.pdf" "" 300 Demo.w0 Demo.doc3 3) as [H _];
    [lia | vm_compute; reflexivity | vm_compute; reflexivity | exact Hd
    | left; reflexivity |].
  exact H.
Defined.


Lemma files_do_not_depend_on_schedule_witness :
  ∃ wa wb loga logb,
    demo_extract "doc.pdf" "out" 300 Demo.sched3 Demo.w0
    = Some (None, wa, loga)
    ∧ demo_extract "doc.pdf" "out" 300 Demo.sched3' Demo.w0
      = Some (None, wb, logb)
    ∧ files wa = files wb ∧ dirs wa = dirs wb.
Proof.
  eexists _, _, _, _.
  assert (∀ (A B : Prop), A → (A → B) → A ∧ B) as Hcut by tauto.
  apply Hcut; [vm_compute; reflexivity |]. intros Hrun1.
  apply Hcut; [vm_compute; reflexivity |]. intros Hrun2.
  destruct (files_do_not_depend_on_schedule Demo.image Demo.pdf_num_pages
              Demo.convert_from_bytes Demo.image_encode
              "doc.pdf" "out" 300 Demo.w0 _ _ Demo.sched3 Demo.sched3'
              _ _ _ _ Hrun1 Hrun2) as (Hf & Hd & _).
  split; [exact Hf | exact Hd].
Defined.

Lemma raises_iff_some_page_fails_witness :
  ∃ w' log e,
    demo_extract "bad.pdf" "out" 300 Demo.sched_bad Demo.w0
    = Some (Some e, w', log)
    ∧ ∃ n, 0 ≤ n < Z.of_nat 3
           ∧ demo_task_outcome Demo.doc_bad 300 "out" (dirs demo_w1) n
             = Some e.
Proof.
  eexists _, _, _.
  assert (∀ (A B : Prop), A → (A → B) → A ∧ B) as Hcut by tauto.
  apply Hcut; [vm_compute; reflexivity |]. intros Hrun.
  destruct (λ H1 H2 H3 H4,
              raises_iff_some_page_fails Demo.image Demo.pdf_num_pages
                Demo.convert_from_bytes Demo.image_encode
                "bad.pdf" "out" 300 Demo.w0 demo_w1 _ Demo.doc_bad 3
                Demo.sched_bad _ _ H1 H2 H3 H4 Hrun) as [_ Hsome];
    [lia | vm_compute; reflexivity | vm_compute; reflexivity
    | vm_compute; reflexivity |].
  exact (Hsome _ eq_refl).
Defined.

Lemma any_failure_can_be_the_one_raised_witness :
  0 ≤ 1 < Z.of_nat 3
  ∧ demo_task_outcome Demo.doc_bad 300 "out" (dirs demo_w1) 1
    = Some (Exn LibraryError "Unable to render page")
  ∧ ∃ sched w' log,
      demo_extract "bad.pdf" "out" 300 sched Demo.w0
      = Some (Some (Exn LibraryError "Unable to render page"), w', log).
Proof.
  assert (0 ≤ 1 < Z.of_nat 3) as H13 by (simpl; lia).
  split; [exact H13 |]. split; [vm_compute; reflexivity |].
  apply (any_failure_can_be_the_one_raised Demo.image Demo.pdf_num_pages
           Demo.convert_from_bytes Demo.image_encode
           "bad.pdf" "out" 300 Demo.w0 demo_w1 Demo.doc_bad 3 1);
    [lia | vm_compute; reflexivity | vm_compute; reflexivity
    | vm_compute; reflexivity | exact H13 | vm_compute; reflexivity].
Defined.

Lemma each_result_asked_once_witness :
  ∃ s,
    demo_run Demo.sched3' (demo_start "doc.pdf" "out" 300 Demo.w0) = Some s
    ∧ observed _ (st_log _ s) = [2; 0; 1]
    ∧ NoDup (observed _ (st_log _ s))
    ∧ observed _ (st_log _ s) ≡ₚ range 3.
Proof.
  eexists. split; [vm_compute; reflexivity |].
  split; [vm_compute; reflexivity |].
  match goal with
  | |- NoDup (observed _ (st_log _ ?s)) ∧ _ =>
      destruct (each_result_asked_once Demo.image Demo.pdf_num_pages
                  Demo.convert_from_bytes Demo.image_encode
                  "doc.pdf" "out" 300 Demo.w0 demo_w1 Demo.doc3 3
                  Demo.sched3' s)
        as (Hnd & _ & _ & Hall);
        [lia | vm_compute; reflexivity | vm_compute; reflexivity
        | vm_compute; reflexivity | vm_compute; reflexivity |]
  end.
  split; [exact Hnd |]. apply Hall. vm_compute; reflexivity.
Defined.


Lemma each_page_converted_once_witness :
  ∃ w' log,
    demo_extract "bad.pdf" "out" 300 Demo.sched_bad Demo.w0
    = Some (Some (Exn LibraryError "Unable to render page"), w', log)
    ∧ page_events _ "out" 2 log
      = [EConvert Demo.doc_bad 300 3 3 true;
         ESave (Byte.x43, 300) "out/page_0003.tiff" "TIFF" (300, 300);
         EPrint "Saved page 3 as out/page_0003.tiff"]
    ∧ length (filter (λ e, is_render _ 2 e) log) = 1%nat.
Proof.
  assert (0 ≤ 2 < Z.of_nat 3) as H23 by (simpl; lia).
  eexists _, _.
  assert (∀ (A B : Prop), A → (A → B) → A ∧ B) as Hcut by tauto.
  apply Hcut; [vm_compute; reflexivity |]. intros Hrun.
  destruct (λ H1 H2 H3 H4,
              each_page_converted_once Demo.image Demo.pdf_num_pages
                Demo.convert_from_bytes Demo.image_encode
                "bad.pdf" "out" 300 Demo.w0 demo_w1 _ Demo.doc_bad 3
                Demo.sched_bad _ _ 2 H1 H2 H3 H4 Hrun H23)
    as [Hev Hone];
    [lia | vm_compute; reflexivity | vm_compute; reflexivity
    | vm_compute; reflexivity |].
  split; [| exact Hone]. rewrite Hev. vm_compute; reflexivity.
Defined.

Lemma main_rejects_bad_arguments_witness :
  0 ≤ 0
  ∧ demo_main "doc.pdf" "out" 0 [] Demo.w0
    = Some (1, ["Error processing PDF: Resolution must be a positive integer"],
            Demo.w0, []).
Proof.
  split; [lia |].
  destruct (main_rejects_bad_arguments Demo.image Demo.pdf_num_pages
              Demo.convert_from_bytes Demo.image_encode
              (λ s, "'" +:+ s +:+ "'") "doc.pdf" "out" 0 Demo.w0) as [H _];
    [left; lia |].
  exact H.
Defined.

Lemma main_exit_status_witness :
  ∃ w' log,
    demo_main "bad.pdf" "out" 300 Demo.sched_bad Demo.w0
    = Some (1, ["Error processing PDF: Unable to render page"], w', log)
    ∧ ∃ n e,
        0 ≤ n < Z.of_nat 3
        ∧ demo_task_outcome Demo.doc_bad 300 "out" (dirs demo_w1) n = Some e
        ∧ ["Error processing PDF: Unable to render page"]
          = ["Error processing PDF: " +:+ str_exn (λ s, "'" +:+ s +:+ "'") e].
Proof.
  eexists _, _.
  assert (∀ (A B : Prop), A → (A → B) → A ∧ B) as Hcut by tauto.
  apply Hcut; [vm_compute; reflexivity |]. intros Hrun.
  destruct (main_exit_status Demo.image Demo.pdf_num_pages
              Demo.convert_from_bytes Demo.image_encode
              (λ s, "'" +:+ s +:+ "'")
              "bad.pdf" "out" 300 Demo.w0 demo_w1 Demo.doc_bad 3)
    as [_ Hall];
    [lia | vm_compute; reflexivity | vm_compute; reflexivity
    | vm_compute; reflexivity |].
  destruct (Hall _ _ _ _ _ Hrun) as [(Hc & _) | (_ & H)];
    [discriminate Hc | exact H].
Defined.

Lemma every_schedule_is_finite_witness :
  ∃ s,
    demo_run (take 10 Demo.sched3') (demo_start "doc.pdf" "out" 300 Demo.w0)
    = Some s
    ∧ (length (take 10 Demo.sched3') ≤ 7 * 3 + 3)%nat
    ∧ ∃ sched' s' r,
        demo_run (take 10 Demo.sched3' ++ sched')
          (demo_start "doc.pdf" "out" 300 Demo.w0) = Some s'
        ∧ st_disp _ s' = Returned r
        ∧ (length (take 10 Demo.sched3' ++ sched') ≤ 7 * 3 + 3)%nat.
Proof.
  eexists.
  assert (∀ (A B : Prop), A → (A → B) → A ∧ B) as Hcut by tauto.
  apply Hcut; [vm_compute; reflexivity |]. intros Hrun.
  destruct (λ H1 H2 H3 H4,
              every_schedule_is_finite Demo.image Demo.pdf_num_pages
                Demo.convert_from_bytes Demo.image_encode
                "doc.pdf" "out" 300 Demo.w0 demo_w1 Demo.doc3 3
                (take 10 Demo.sched3') _ H1 H2 H3 H4 Hrun)
    as [Hlen Hlive];
    [lia | vm_compute; reflexivity | vm_compute; reflexivity
    | vm_compute; reflexivity |].
  split; [exact Hlen | exact Hlive].
Defined.

Lemma distinct_pages_distinct_files_witness :
  0 ≤ 0 ∧ 0 ≤ 10000
  ∧ os_path_join "out" (page_file_name 0)
    ≠ os_path_join "out" (page_file_name 10000).
Proof.
  split; [lia |]. split; [lia |].
  apply distinct_pages_distinct_files; lia.
Defined.
